(** * FUMIC: FFPE-artefact UMI-based mapper -- a shallow embedding of
    [fumic.py] and the properties of its molecule classification engine.

    The Python functions [pos_hits], [ffpe_finder], [pos_checker],
    [sup_count] and [vcf_extract] are translated one by one.  Python
    dictionaries with a fixed set of literal keys become records,
    dictionaries keyed by data (alleles, base symbols) become [gmap]s,
    dictionaries whose iteration order matters ([umi_dict], [pos_res])
    become association lists in insertion order, and exceptions are
    values of the type [result]. *)

From stdpp Require Import gmap strings list fin_maps pretty.
From Stdlib Require Import ZArith Ascii String.

Local Open Scope Z_scope.
Local Open Scope char_scope.

(** ** Python primitives *)

Module Py.

(** The exceptions the program can raise. *)
Inductive exn := KeyError | IndexError | TypeError.

(** A computation either returns a value or raises. *)
Inductive result (A : Type) :=
| Ok (a : A)
| Raise (e : exn).
Arguments Ok {A} a.
Arguments Raise {A} e.

#[global] Instance exn_eq_dec : EqDecision exn.
Proof. solve_decision. Defined.

#[global] Instance result_ret : MRet result := λ A a, Ok a.
#[global] Instance result_bind : MBind result :=
  λ A B f m, match m with Ok a => f a | Raise e => Raise e end.
#[global] Instance result_fmap : FMap result :=
  λ A B f m, match m with Ok a => Ok (f a) | Raise e => Raise e end.

(** A [for] loop whose body may raise and that has no handler of its
    own: the exception leaves the loop. *)
Fixpoint foldM {S X : Type} (body : X → S → result S) (xs : list X) (s : S)
  : result S :=
  match xs with
  | [] => Ok s
  | x :: xs' => s' ← body x s; foldM body xs' s'
  end.

(** A [for] loop inside a [try]: the variables mutated so far stay
    visible to the handler, so the loop returns the state it reached
    together with the pending exception, if any. *)
Fixpoint for_each {S X : Type} (body : X → S → S * option exn)
    (xs : list X) (s : S) : S * option exn :=
  match xs with
  | [] => (s, None)
  | x :: xs' =>
      match body x s with
      | (s', None) => for_each body xs' s'
      | (s', Some e) => (s', Some e)
      end
  end.

(** A loop body that mutates its state only in its last statement. *)
Definition commit {S : Type} (s : S) (r : result S) : S * option exn :=
  match r with
  | Ok s' => (s', None)
  | Raise e => (s, Some e)
  end.

(** [d[k]] on a dictionary: [KeyError] when the key is missing. *)
Definition getitem {K : Type} `{Countable K} {V : Type}
    (d : gmap K V) (k : K) : result V :=
  match d !! k with
  | Some v => Ok v
  | None => Raise KeyError
  end.

(** [a and b] on two conditions that may raise: [b] is only evaluated
    when [a] is true. *)
Definition and_ (a b : result bool) : result bool :=
  match a with
  | Ok true => b
  | Ok false => Ok false
  | Raise e => Raise e
  end.

(** [s.split(sep)] for a one-character separator. *)
Fixpoint split (sep : ascii) (s : string) : list string :=
  match s with
  | EmptyString => [EmptyString]
  | String c s' =>
      if decide (c = sep) then EmptyString :: split sep s'
      else match split sep s' with
           | [] => [String c EmptyString]
           | fld :: flds => String c fld :: flds
           end
  end.

(** [l.index(x)]: the first index holding [x]; [None] stands for the
    [ValueError] raised when [x] is not in the list. *)
Definition index {A : Type} `{EqDecision A} (x : A) (l : list A) : option nat :=
  fst <$> list_find (λ y, y = x) l.

(** [set(s)] for a string [s]: the set of its characters. *)
Definition set_of_string (s : string) : gset ascii :=
  list_to_set (list_ascii_of_string s).

(** [''.join(l)]. *)
Definition join (l : list string) : string :=
  foldr String.append EmptyString l.

(** [l[i]] on a list, for [i >= 0]. *)
Definition list_getitem {A : Type} (l : list A) (i : nat) : result A :=
  match l !! i with
  | Some x => Ok x
  | None => Raise IndexError
  end.

(** [l[-1]]. *)
Definition list_last {A : Type} (l : list A) : result A :=
  match last l with
  | Some x => Ok x
  | None => Raise IndexError
  end.

(** Truth value of a dictionary and of a list: non-empty. *)
Definition truthy {K : Type} `{Countable K} {V : Type} `{EqDecision V}
    (d : gmap K V) : bool :=
  bool_decide (d ≠ ∅).

Definition truthy_list {A : Type} (l : list A) : bool :=
  match l with [] => false | _ :: _ => true end.

(** [d[k] += x] on a dictionary of integers. *)
Definition iadd {K : Type} `{Countable K} (d : gmap K Z) (k : K) (x : Z)
  : result (gmap K Z) :=
  v ← getitem d k; Ok (<[k := v + x]> d).

(** Dictionaries whose iteration order matters are association lists
    in insertion order; [d[k] = v] overwrites in place or appends. *)
Fixpoint alist_lookup {V : Type} (k : string) (d : list (string * V))
  : option V :=
  match d with
  | [] => None
  | (k', v) :: d' => if decide (k' = k) then Some v else alist_lookup k d'
  end.

Fixpoint alist_set {V : Type} (k : string) (v : V) (d : list (string * V))
  : list (string * V) :=
  match d with
  | [] => [(k, v)]
  | (k', v') :: d' =>
      if decide (k' = k) then (k', v) :: d' else (k', v') :: alist_set k v d'
  end.

End Py.
Import Py.

(** ** Reads *)

(** The part of a pysam aligned segment that the program looks at.
    [get_reference_positions] is the list returned by
    [read.get_reference_positions(full_length=True)]: one entry per base
    of the query, [None] where the base is not aligned.  A read stored
    without its sequence, whose [query_sequence] pysam gives as [None],
    is not represented. *)
Record read := {
  is_read1 : bool;
  is_reverse : bool;
  query_name : string;
  query_sequence : string;
  get_reference_positions : list (option Z)
}.

#[global] Instance read_eq_dec : EqDecision read.
Proof. solve_decision. Defined.

(** ** [pos_hits]: the base tally of a list of reads at one coordinate *)

(** The six local counters of [pos_hits]. *)
Record counters := {
  n_a : Z; n_t : Z; n_g : Z; n_c : Z; n_n : Z; n_d : Z
}.

(** The dictionary literal
    [{"A": n_a, "T": n_t, "G": n_g, "C": n_c, "N": n_n, "-": n_d}]. *)
Definition pos_dict (c : counters) : gmap ascii Z :=
  <["A" := n_a c]> (<["T" := n_t c]> (<["G" := n_g c]> (<["C" := n_c c]>
    (<["N" := n_n c]> {["-" := n_d c]})))).

(** The body of the loop over [inp_lst]. *)
Definition pos_hits_read (record_pos : Z) (rd : read) (c : counters)
  : result counters :=
  let read_pos := get_reference_positions rd in
  match index (Some record_pos) read_pos with
  | Some ind_pos =>
      let read_seq := list_ascii_of_string (query_sequence rd) in
      match read_seq !! ind_pos with
      | Some read_base =>
          if decide (read_base = "A") then
            Ok {| n_a := n_a c + 1; n_t := n_t c; n_g := n_g c;
                  n_c := n_c c; n_n := n_n c; n_d := n_d c |}
          else if decide (read_base = "T") then
            Ok {| n_a := n_a c; n_t := n_t c + 1; n_g := n_g c;
                  n_c := n_c c; n_n := n_n c; n_d := n_d c |}
          else if decide (read_base = "G") then
            Ok {| n_a := n_a c; n_t := n_t c; n_g := n_g c + 1;
                  n_c := n_c c; n_n := n_n c; n_d := n_d c |}
          else if decide (read_base = "C") then
            Ok {| n_a := n_a c; n_t := n_t c; n_g := n_g c;
                  n_c := n_c c + 1; n_n := n_n c; n_d := n_d c |}
          else
            Ok {| n_a := n_a c; n_t := n_t c; n_g := n_g c;
                  n_c := n_c c; n_n := n_n c + 1; n_d := n_d c |}
      | None => Raise IndexError
      end
  | None =>
      (* except ValueError *)
      Ok {| n_a := n_a c; n_t := n_t c; n_g := n_g c;
            n_c := n_c c; n_n := n_n c; n_d := n_d c + 1 |}
  end.

Definition counters_zero : counters :=
  {| n_a := 0; n_t := 0; n_g := 0; n_c := 0; n_n := 0; n_d := 0 |}.

Definition pos_hits (inp_lst : list read) (record_pos : Z)
  : result (gmap ascii Z) :=
  c ← foldM (pos_hits_read record_pos) inp_lst counters_zero;
  Ok (pos_dict c).

(** ** [ffpe_finder]: the verdict of one paired molecule *)

(** The value [{"Forward Molecule": f_hits, "Reverse Molecule": r_hits}]
    stored under an allele. *)
Record hit := {
  Forward_Molecule_hits : gmap ascii Z;
  Reverse_Molecule_hits : gmap ascii Z
}.

#[global] Instance hit_eq_dec : EqDecision hit.
Proof. solve_decision. Defined.

(** The dictionary returned by [ffpe_finder], with the keys
    ["FFPE Hits"], ["Mutation Hits"], ["Reference Hits"] and
    ["Other Mutation Hits"]. *)
Record variant_hits := {
  FFPE_Hits : gmap ascii hit;
  Mutation_Hits : gmap ascii hit;
  Reference_Hits : gmap ascii hit;
  Other_Mutation_Hits : gmap ascii hit
}.

#[global] Instance variant_hits_eq_dec : EqDecision variant_hits.
Proof. solve_decision. Defined.

(** The entries of [base_res] that [ffpe_finder] reads; ["Forward Reads"]
    and ["Reverse Reads"] are stored by [pos_checker] and never read. *)
Record base_res_t := {
  Forward_Reads : list read;
  Reverse_Reads : list read;
  Forward_Hits : gmap string (gmap ascii Z);
  Reverse_Hits : gmap string (gmap ascii Z)
}.

(** The local dictionaries of [ffpe_finder]; [out_dict] is created empty
    and no statement of the function writes to it. *)
Record finder_dicts := {
  ffpe_dict : gmap ascii hit;
  mut_dict : gmap ascii hit;
  ref_dict : gmap ascii hit;
  out_dict : gmap ascii hit
}.

Definition gt0 (x : Z) : bool := bool_decide (x > 0).
Definition eq0 (x : Z) : bool := bool_decide (x = 0).

(** The body of the two nested loops, for one [var_call] and one
    [r_base]. *)
Definition ffpe_finder_step (f_hits r_hits : gmap ascii Z) (var_call : ascii)
    (r_base : ascii) (d : finder_dicts) : result finder_dicts :=
  let h := {| Forward_Molecule_hits := f_hits;
              Reverse_Molecule_hits := r_hits |} in
  c1 ← and_ (gt0 <$> getitem f_hits var_call) (gt0 <$> getitem r_hits var_call);
  if c1 : bool then
    Ok {| ffpe_dict := ffpe_dict d; mut_dict := <[var_call := h]> (mut_dict d);
          ref_dict := ref_dict d; out_dict := out_dict d |}
  else
  c2 ← and_ (gt0 <$> getitem f_hits var_call) (eq0 <$> getitem r_hits var_call);
  if c2 : bool then
    Ok {| ffpe_dict := <[var_call := h]> (ffpe_dict d); mut_dict := mut_dict d;
          ref_dict := ref_dict d; out_dict := out_dict d |}
  else
  c3 ← and_ (gt0 <$> getitem r_hits var_call) (eq0 <$> getitem f_hits var_call);
  if c3 : bool then
    Ok {| ffpe_dict := <[var_call := h]> (ffpe_dict d); mut_dict := mut_dict d;
          ref_dict := ref_dict d; out_dict := out_dict d |}
  else
  c4 ← and_ (gt0 <$> getitem f_hits r_base) (gt0 <$> getitem r_hits r_base);
  if c4 : bool then
    Ok {| ffpe_dict := ffpe_dict d; mut_dict := mut_dict d;
          ref_dict := <[r_base := h]> (ref_dict d); out_dict := out_dict d |}
  else
    Ok {| ffpe_dict := ffpe_dict d; mut_dict := <[var_call := h]> (mut_dict d);
          ref_dict := ref_dict d; out_dict := out_dict d |}.

Definition finder_dicts_empty : finder_dicts :=
  {| ffpe_dict := ∅; mut_dict := ∅; ref_dict := ∅; out_dict := ∅ |}.

(** The [try] block: the two lookups under [umi_key], then the loops.
    The dictionaries are mutated in place, so what was stored before a
    [KeyError] stays. *)
Definition ffpe_finder_try (base_res : base_res_t) (ref_var ref_base : list ascii)
    (umi_key : string) (d : finder_dicts) : finder_dicts * option exn :=
  match getitem (Forward_Hits base_res) umi_key with
  | Raise e => (d, Some e)
  | Ok f_hits =>
      match getitem (Reverse_Hits base_res) umi_key with
      | Raise e => (d, Some e)
      | Ok r_hits =>
          for_each
            (λ var_call d1,
               for_each
                 (λ r_base d2,
                    commit d2 (ffpe_finder_step f_hits r_hits var_call r_base d2))
                 ref_base d1)
            ref_var d
      end
  end.

Definition ffpe_finder (base_res : base_res_t) (ref_var ref_base : list ascii)
    (umi_key : string) : result variant_hits :=
  let '(d, e) := ffpe_finder_try base_res ref_var ref_base umi_key
                   finder_dicts_empty in
  let var_dict := {| FFPE_Hits := ffpe_dict d; Mutation_Hits := mut_dict d;
                     Reference_Hits := ref_dict d;
                     Other_Mutation_Hits := out_dict d |} in
  match e with
  | None | Some KeyError => Ok var_dict
  | Some e' => Raise e'
  end.

(** ** [pos_checker]: grouping the reads into molecules and classifying *)

(** The two strand labels, ["Forward_Molecule"] and ["Reverse_Molecule"]. *)
Inductive strand := Forward_Molecule | Reverse_Molecule.

(** The value [{"Forward_Molecule": [], "Reverse_Molecule": []}] of a
    molecule key in [umi_dict]. *)
Record umi_add := {
  Forward_Molecule_lst : list read;
  Reverse_Molecule_lst : list read
}.

Definition strand_append (s : strand) (rd : read) (v : umi_add) : umi_add :=
  match s with
  | Forward_Molecule =>
      {| Forward_Molecule_lst := Forward_Molecule_lst v ++ [rd];
         Reverse_Molecule_lst := Reverse_Molecule_lst v |}
  | Reverse_Molecule =>
      {| Forward_Molecule_lst := Forward_Molecule_lst v;
         Reverse_Molecule_lst := Reverse_Molecule_lst v ++ [rd] |}
  end.

(** The strand label and the molecule key [umi_id] of a read. *)
Definition umi_id_of (rd : read) : result (strand * string) :=
  let qn := query_name rd in
  let qn_spl := split "_" qn in
  umi ← list_last qn_spl;
  let brc := split "+" umi in
  umi_l ← list_getitem brc 0;
  umi_r ← list_getitem brc 1;
  Ok (if is_read1 rd then
        if is_reverse rd
        then (Reverse_Molecule, (umi_r +:+ "_" +:+ umi_l)%string)
        else (Forward_Molecule, (umi_l +:+ "_" +:+ umi_r)%string)
      else
        if is_reverse rd
        then (Forward_Molecule, (umi_l +:+ "_" +:+ umi_r)%string)
        else (Reverse_Molecule, (umi_r +:+ "_" +:+ umi_l)%string)).

(** The body of the first loop: the read is appended to the strand list
    of its molecule, which is created on its first read. *)
Definition group_read (rd : read) (umi_dict : list (string * umi_add))
  : result (list (string * umi_add)) :=
  '(strand, umi_id) ← umi_id_of rd;
  match alist_lookup umi_id umi_dict with
  | Some v => Ok (alist_set umi_id (strand_append strand rd v) umi_dict)
  | None =>
      (* except KeyError *)
      let umi_add := {| Forward_Molecule_lst := [];
                        Reverse_Molecule_lst := [] |} in
      Ok (alist_set umi_id (strand_append strand rd umi_add) umi_dict)
  end.

(** One value of [pos_res]: the keys ["Forward Single"],
    ["Reverse Single"] and ["Variant Hits"].  [Variant_Hits] is [None]
    for the empty dictionary that [var_dict] is initialised with. *)
Record entry := {
  Forward_Single : gmap ascii Z;
  Reverse_Single : gmap ascii Z;
  Variant_Hits : option variant_hits
}.

(** The variables that live across the iterations of the second loop. *)
Record loop_vars := {
  f_hits : gmap string (gmap ascii Z);
  r_hits : gmap string (gmap ascii Z);
  f_s_hits : gmap ascii Z;
  r_s_hits : gmap ascii Z;
  var_dict : option variant_hits;
  counter : Z;
  pos_res : list (string * entry)
}.

Definition loop_vars_init : loop_vars :=
  {| f_hits := ∅; r_hits := ∅; f_s_hits := ∅; r_s_hits := ∅;
     var_dict := None; counter := 0; pos_res := [] |}.

(** The [if]/[elif] chain of the second loop, for one molecule. *)
Definition pos_checker_branches (record_pos : Z) (ref_var ref_base : list ascii)
    (umi_key : string) (v : umi_add) (st : loop_vars) : result loop_vars :=
  let f_lst := Forward_Molecule_lst v in
  let r_lst := Reverse_Molecule_lst v in
  if truthy_list f_lst then
    if truthy_list r_lst then
      fh ← pos_hits f_lst record_pos;
      let f_hits' := <[umi_key := fh]> (f_hits st) in
      rh ← pos_hits r_lst record_pos;
      let r_hits' := <[umi_key := rh]> (r_hits st) in
      let base_res := {| Forward_Reads := f_lst; Reverse_Reads := r_lst;
                         Forward_Hits := f_hits'; Reverse_Hits := r_hits' |} in
      vd ← ffpe_finder base_res ref_var ref_base umi_key;
      Ok {| f_hits := f_hits'; r_hits := r_hits'; f_s_hits := f_s_hits st;
            r_s_hits := r_s_hits st; var_dict := Some vd;
            counter := counter st + 1; pos_res := pos_res st |}
    else Ok st
  else if truthy_list f_lst then
    if negb (truthy_list r_lst) then
      fs ← pos_hits f_lst record_pos;
      Ok {| f_hits := f_hits st; r_hits := r_hits st; f_s_hits := fs;
            r_s_hits := r_s_hits st; var_dict := var_dict st;
            counter := counter st; pos_res := pos_res st |}
    else Ok st
  else if truthy_list r_lst then
    if negb (truthy_list f_lst) then
      rs ← pos_hits r_lst record_pos;
      Ok {| f_hits := f_hits st; r_hits := r_hits st; f_s_hits := f_s_hits st;
            r_s_hits := rs; var_dict := var_dict st;
            counter := counter st; pos_res := pos_res st |}
    else Ok st
  else Ok st.

(** The body of the second loop: the branches, then the assignment to
    [pos_res[umi_key]] from the current values of the variables. *)
Definition pos_checker_key (record_pos : Z) (ref_var ref_base : list ascii)
    (kv : string * umi_add) (st : loop_vars) : result loop_vars :=
  let '(umi_key, v) := kv in
  st' ← pos_checker_branches record_pos ref_var ref_base umi_key v st;
  Ok {| f_hits := f_hits st'; r_hits := r_hits st'; f_s_hits := f_s_hits st';
        r_s_hits := r_s_hits st'; var_dict := var_dict st';
        counter := counter st';
        pos_res := alist_set umi_key
                     {| Forward_Single := f_s_hits st';
                        Reverse_Single := r_s_hits st';
                        Variant_Hits := var_dict st' |}
                     (pos_res st') |}.

(** A value of [umi_dict] is a dictionary with two keys, hence true. *)
Definition umi_add_truthy (v : umi_add) : bool := true.

Definition pos_checker (bam_lst : list read) (record_pos : Z)
    (ref_var ref_base : list ascii) : result (list (string * entry)) :=
  match for_each (λ rd d, commit d (group_read rd d)) bam_lst [] with
  | (_, Some KeyError) => Ok []
  | (_, Some e) => Raise e
  | (umi_dict, None) =>
      let umi_dict := List.filter (λ kv, umi_add_truthy kv.2) umi_dict in
      match for_each
              (λ kv st,
                 commit st (pos_checker_key record_pos ref_var ref_base kv st))
              umi_dict loop_vars_init with
      | (st, None) | (st, Some KeyError) => Ok (pos_res st)
      | (_, Some e) => Raise e
      end
  end.

(** ** [sup_count]: the support counts of a position *)

(** One of [alt_sup] and [ref_sup]: the keys ["Forward Single"],
    ["Reverse Single"] and ["Paired"], each a dictionary from allele to
    count. *)
Record sup := {
  sup_Forward_Single : gmap ascii Z;
  sup_Reverse_Single : gmap ascii Z;
  sup_Paired : gmap ascii Z
}.

(** The dictionary [{"Variant": alt_sup, "Reference": ref_sup}]. *)
Record pos_sup_t := {
  Variant : sup;
  Reference : sup
}.

Definition sup_empty : sup :=
  {| sup_Forward_Single := ∅; sup_Reverse_Single := ∅; sup_Paired := ∅ |}.

(** [sup[...][a] = 0] for the three counters of allele [a]. *)
Definition sup_init (a : ascii) (s : sup) : sup :=
  {| sup_Forward_Single := <[a := 0]> (sup_Forward_Single s);
     sup_Reverse_Single := <[a := 0]> (sup_Reverse_Single s);
     sup_Paired := <[a := 0]> (sup_Paired s) |}.

(** [if single: if a in single: sup["Forward Single"][a] += single[a]]. *)
Definition add_forward_single (single : gmap ascii Z) (a : ascii) (s : sup)
  : result sup :=
  if bool_decide (a ∈ dom single) then
    x ← getitem single a;
    d ← iadd (sup_Forward_Single s) a x;
    Ok {| sup_Forward_Single := d; sup_Reverse_Single := sup_Reverse_Single s;
          sup_Paired := sup_Paired s |}
  else Ok s.

Definition add_reverse_single (single : gmap ascii Z) (a : ascii) (s : sup)
  : result sup :=
  if bool_decide (a ∈ dom single) then
    x ← getitem single a;
    d ← iadd (sup_Reverse_Single s) a x;
    Ok {| sup_Forward_Single := sup_Forward_Single s; sup_Reverse_Single := d;
          sup_Paired := sup_Paired s |}
  else Ok s.

(** The block repeated for each category [hits] of ["Variant Hits"]:
    [if hits: if a in hits:] then
    [sup["Paired"][a] += hits[a]["Forward Molecule"][a]] and
    [sup["Paired"][a] += hits[a]["Reverse Molecule"][a]]. *)
Definition add_paired (hits : gmap ascii hit) (a : ascii) (s : sup)
  : result sup :=
  if truthy hits then
    match hits !! a with
    | Some h =>
        x ← getitem (Forward_Molecule_hits h) a;
        d1 ← iadd (sup_Paired s) a x;
        y ← getitem (Reverse_Molecule_hits h) a;
        d2 ← iadd d1 a y;
        Ok {| sup_Forward_Single := sup_Forward_Single s;
              sup_Reverse_Single := sup_Reverse_Single s; sup_Paired := d2 |}
    | None => Ok s
    end
  else Ok s.

(** The body of the loop over [input_dict] for the alternate allele
    [alt]: four independent [if] statements. *)
Definition sup_count_alt_key (alt : ascii) (kv : string * entry) (alt_sup : sup)
  : result sup :=
  let e := kv.2 in
  s1 ← (if truthy (Forward_Single e)
        then add_forward_single (Forward_Single e) alt alt_sup
        else Ok alt_sup);
  s2 ← (if truthy (Reverse_Single e)
        then add_reverse_single (Reverse_Single e) alt s1
        else Ok s1);
  match Variant_Hits e with
  | Some vh =>
      s3 ← add_paired (FFPE_Hits vh) alt s2;
      s4 ← add_paired (Mutation_Hits vh) alt s3;
      s5 ← add_paired (Reference_Hits vh) alt s4;
      add_paired (Other_Mutation_Hits vh) alt s5
  | None => Ok s2
  end.

(** The ["Mutation Hits"] block of the reference loop.  Its two sums read
    [hits["Forward Molecule"][ref]] and [hits["Reverse Molecule"][ref]]:
    [hits] is keyed by alleles, which are single characters, so the
    lookup of the key ["Forward Molecule"] raises [KeyError]. *)
Definition add_paired_mutation_ref (hits : gmap ascii hit) (ref : ascii) (s : sup)
  : result sup :=
  if truthy hits then
    match hits !! ref with
    | Some h =>
        s1 ← (if truthy (Forward_Molecule_hits h)
              then _ ← getitem (sup_Paired s) ref; Raise KeyError
              else Ok s);
        if truthy (Reverse_Molecule_hits h)
        then _ ← getitem (sup_Paired s1) ref; Raise KeyError
        else Ok s1
    | None => Ok s
    end
  else Ok s.

(** The body of the loop over [input_dict] for the reference base [ref]:
    one [if]/[elif]/[elif] chain, and inside its last branch
    ["Other Mutation Hits"] is the [elif] of ["Reference Hits"]. *)
Definition sup_count_ref_key (ref : ascii) (kv : string * entry) (ref_sup : sup)
  : result sup :=
  let e := kv.2 in
  if truthy (Forward_Single e) then
    add_forward_single (Forward_Single e) ref ref_sup
  else if truthy (Reverse_Single e) then
    add_reverse_single (Reverse_Single e) ref ref_sup
  else
    match Variant_Hits e with
    | Some vh =>
        s1 ← add_paired (FFPE_Hits vh) ref ref_sup;
        s2 ← add_paired_mutation_ref (Mutation_Hits vh) ref s1;
        if truthy (Reference_Hits vh) then
          add_paired (Reference_Hits vh) ref s2
        else if truthy (Other_Mutation_Hits vh) then
          add_paired (Other_Mutation_Hits vh) ref s2
        else Ok s2
    | None => Ok ref_sup
    end.

Definition sup_count_alt (input_dict : list (string * entry)) (alt : ascii)
    (alt_sup : sup) : result sup :=
  foldM (sup_count_alt_key alt) input_dict (sup_init alt alt_sup).

Definition sup_count_ref (input_dict : list (string * entry)) (ref : ascii)
    (ref_sup : sup) : result sup :=
  foldM (sup_count_ref_key ref) input_dict (sup_init ref ref_sup).

Definition sup_count (input_dict : list (string * entry))
    (n_ref n_alt : list ascii) : result pos_sup_t :=
  alt_sup ← foldM (sup_count_alt input_dict) n_alt sup_empty;
  ref_sup ← foldM (sup_count_ref input_dict) n_ref sup_empty;
  Ok {| Variant := alt_sup; Reference := ref_sup |}.

(** ** [vcf_extract]: annotating the variant records *)

(** A value that is either the empty list [[]], which [var_sd] and
    [ref_sd] start as, or a string. *)
Inductive pyval :=
| PyEmptyList
| PyStr (s : string).

#[global] Instance pyval_eq_dec : EqDecision pyval.
Proof. solve_decision. Defined.

(** [a + b]: concatenation of two strings or of two lists. *)
Definition py_add (a b : pyval) : result pyval :=
  match a, b with
  | PyStr x, PyStr y => Ok (PyStr (x +:+ y))
  | PyEmptyList, PyEmptyList => Ok PyEmptyList
  | _, _ => Raise TypeError
  end.

(** A variant record: the fields the program reads or writes.  [alts] is
    [None] for a record without alternate allele; [samples] pairs each
    sample name with its ["UMI"] format field, if set. *)
Record vcf_record := {
  chrom : string;
  pos : Z;
  ref : string;
  alts : option (list string);
  samples : list (string * option pyval);
  filter : list string
}.

#[global] Instance vcf_record_eq_dec : EqDecision vcf_record.
Proof. solve_decision. Defined.

(** What the run does to the outside: the queries sent to the alignment
    file, in order, and the records written to the output file. *)
Record io := {
  fetched : list (string * Z * Z);
  output_vcf : list vcf_record
}.

Definition io_empty : io := {| fetched := []; output_vcf := [] |}.

(** [filter.add(name)].  pysam hands the filter to htslib's
    [bcf_add_filter]: a filter that is already set changes nothing;
    setting ["PASS"] removes the other filters; setting another filter on
    a record whose only filter is ["PASS"] removes ["PASS"]. *)
Definition filter_add (name : string) (fl : list string) : list string :=
  if bool_decide (name ∈ fl) then fl
  else if bool_decide (name = "PASS"%string) then [name]
  else if bool_decide (fl = ["PASS"%string]) then [name]
  else fl ++ [name].

(** [str(paired[a]) + ":" + str(forward[a]) + ":" + str(reverse[a])]. *)
Definition sup_triple (s : sup) (a : ascii) : result pyval :=
  p ← getitem (sup_Paired s) a;
  f ← getitem (sup_Forward_Single s) a;
  r ← getitem (sup_Reverse_Single s) a;
  Ok (PyStr (pretty p +:+ ":" +:+ pretty f +:+ ":" +:+ pretty r)).

(** The test of the loop that sets the filter: ["Variant Hits"] and its
    ["FFPE Hits"] are both non-empty. *)
Definition has_ffpe (kv : string * entry) : bool :=
  match Variant_Hits kv.2 with
  | Some vh => truthy (FFPE_Hits vh)
  | None => false
  end.

Section vcf_extract.

(** The alignment file: [bam_file contig start stop] is the list of reads
    that [bam_file.fetch(contig, start, stop)] yields. *)
Variable bam_file : string → Z → Z → list read.

(** A fetch returns the reads and is recorded in [fetched]. *)
Definition bam_fetch (contig : string) (start stop : Z) (w : io)
  : list read * io :=
  (bam_file contig start stop,
   {| fetched := fetched w ++ [(contig, start, stop)];
      output_vcf := output_vcf w |}).

(** The part of the loop body after the reads were fetched. *)
Definition annotate (record : vcf_record) (record_pos : Z)
    (n_ref n_alt : gset ascii) (bam_lst : list read) : result vcf_record :=
  let n_cop := record in
  ffpe_data ← pos_checker bam_lst record_pos (elements n_alt) (elements n_ref);
  pos_sup ← sup_count ffpe_data (elements n_ref) (elements n_alt);
  var_sd ← foldM (λ var _, sup_triple (Variant pos_sup) var)
             (elements n_alt) PyEmptyList;
  ref_sd ← foldM (λ ref _, sup_triple (Reference pos_sup) ref)
             (elements n_ref) PyEmptyList;
  samples' ← foldM (λ sample acc,
                      umi ← py_add var_sd ref_sd;
                      Ok (acc ++ [(sample.1, Some umi)]))
               (samples n_cop) [];
  let filter' := if existsb has_ffpe ffpe_data
                 then filter_add "FFPE" (filter n_cop)
                 else filter n_cop in
  Ok {| chrom := chrom n_cop; pos := pos n_cop; ref := ref n_cop;
        alts := alts n_cop; samples := samples'; filter := filter' |}.

(** The body of the loop over the records of the variant file. *)
Definition vcf_extract_record (record : vcf_record) (w : io)
  : io * option exn :=
  let n_pos := pos record in
  let record_pos := n_pos - 1 in
  let n_ref := set_of_string (ref record) in
  match alts record with
  | None => (w, Some TypeError)
  | Some n_alt =>
      let n_alt := set_of_string (join n_alt) in
      if bool_decide (1 < size n_ref ∨ 1 < size n_alt)%nat then
        (* continue *)
        (w, None)
      else
        let '(bam_lst, w1) := bam_fetch "chr8" record_pos (record_pos + 1) w in
        commit w1
          (n_cop ← annotate record record_pos n_ref n_alt bam_lst;
           Ok {| fetched := fetched w1;
                 output_vcf := output_vcf w1 ++ [n_cop] |})
  end.

Definition vcf_extract (vcf_file : list vcf_record) : io * option exn :=
  for_each vcf_extract_record vcf_file io_empty.

End vcf_extract.

(** ** Notions used to state the properties *)

(** The base a read shows at a target coordinate, as the design states
    it: the base of the query sequence at the index where the coordinate
    is found, kept when it is one of A, T, G, C and replaced by N
    otherwise; the gap symbol when the coordinate is not found. *)
Definition normalize_base (b : ascii) : ascii :=
  if bool_decide (b ∈ ["A"; "T"; "G"; "C"]) then b else "N".

Inductive base_call_spec (rd : read) (target : Z) : ascii → Prop :=
| call_found (i : nat) (b : ascii) :
    get_reference_positions rd !! i = Some (Some target) →
    (∀ j, (j < i)%nat → get_reference_positions rd !! j ≠ Some (Some target)) →
    list_ascii_of_string (query_sequence rd) !! i = Some b →
    base_call_spec rd target (normalize_base b)
| call_absent :
    Some target ∉ get_reference_positions rd →
    base_call_spec rd target "-".

(** The tally of a single read showing the symbol [s]. *)
Definition tally_of (s : ascii) : gmap ascii Z :=
  <[s := 1]> (pos_dict counters_zero).

(** The six symbols of a base tally. *)
Definition base_symbols : gset ascii :=
  list_to_set ["A"; "T"; "G"; "C"; "N"; "-"].

(** The count a tally holds for a symbol. *)
Definition count_of (t : gmap ascii Z) (s : ascii) : Z := default 0 (t !! s).

Definition counters_sum (c : counters) : Z :=
  n_a c + n_t c + n_g c + n_c c + n_n c + n_d c.

Definition counters_nonneg (c : counters) : Prop :=
  0 ≤ n_a c ∧ 0 ≤ n_t c ∧ 0 ≤ n_g c ∧ 0 ≤ n_c c ∧ 0 ≤ n_n c ∧ 0 ≤ n_d c.

(** The index-to-coordinate mapping of the read is not longer than its
    query sequence. *)
Definition read_covered (rd : read) : Prop :=
  (List.length (get_reference_positions rd)
   ≤ String.length (query_sequence rd))%nat.

(** The number of categories of a verdict that hold a hit. *)
Definition categories_produced (vd : variant_hits) : nat :=
  List.length (List.filter (λ b : bool, b)
    [truthy (Reference_Hits vd); truthy (Mutation_Hits vd);
     truthy (FFPE_Hits vd); truthy (Other_Mutation_Hits vd)]).

(** The number of categories filled for each molecule of a position. *)
Definition verdict_counts (pos_res : list (string * entry))
  : list (option nat) :=
  List.map (λ kv, option_map categories_produced (Variant_Hits kv.2)) pos_res.

(** The barcode fields of a read identifier: the last ["_"]-separated
    field, split at ["+"]. *)
Definition barcode_fields (rd : read) : list string :=
  match last (split "_" (query_name rd)) with
  | Some umi => split "+" umi
  | None => []
  end.

(** Two variant records that differ at most in their chromosome. *)
Definition same_but_chrom (r1 r2 : vcf_record) : Prop :=
  pos r1 = pos r2 ∧ ref r1 = ref r2 ∧ alts r1 = alts r2
  ∧ samples r1 = samples r2 ∧ filter r1 = filter r2.

(** The three counters of an allele in a support record:
    Paired, Forward-Single, Reverse-Single. *)
Definition support_of (s : sup) (a : ascii)
  : option Z * option Z * option Z :=
  (sup_Paired s !! a, sup_Forward_Single s !! a, sup_Reverse_Single s !! a).

(** The support counts of a list of reads at a coordinate, for one
    alternate allele and one reference base: [pos_checker] followed by
    [sup_count], as [vcf_extract] chains them. *)
Definition position_support (bam_lst : list read) (record_pos : Z)
    (alt ref : ascii)
  : result ((option Z * option Z * option Z) * (option Z * option Z * option Z)) :=
  ffpe_data ← pos_checker bam_lst record_pos [alt] [ref];
  pos_sup ← sup_count ffpe_data [ref] [alt];
  Ok (support_of (Variant pos_sup) alt, support_of (Reference pos_sup) ref).

(** ** Sample data: reads over the coordinate 99 (variant position 100) *)

Definition read_at (r1 rev : bool) (name seq : string) : read :=
  {| is_read1 := r1; is_reverse := rev; query_name := name;
     query_sequence := seq;
     get_reference_positions := [Some 98; Some 99; Some 100] |}.

(** A molecule with both strands: the forward strand shows C, the
    reverse strand shows T. *)
Definition read_fwd_C : read :=
  read_at true false "m1_AAATTT+CCCGGG" "ACG".
Definition read_rev_T : read :=
  read_at false false "m1_CCCGGG+AAATTT" "ATG".

(** A molecule with both strands showing A and G: neither the alternate
    C nor the reference T. *)
Definition read_fwd_A : read :=
  read_at true false "m5_AAATTT+CCCGGG" "AAG".
Definition read_rev_G : read :=
  read_at false false "m5_CCCGGG+AAATTT" "AGG".

(** A molecule of which only a forward-strand read exists, showing C. *)
Definition read_fwd_single_C : read :=
  read_at true false "m3_ACACAC+GTGTGT" "ACG".

(** A molecule of which only a reverse-strand read exists, showing C. *)
Definition read_rev_single_C : read :=
  read_at true true "m2_GGGAAA+TTTCCC" "ACG".

(** A read whose identifier carries a single barcode field. *)
Definition read_no_plus : read :=
  read_at true false "m4_ACACACGTGTGT" "ACG".

Definition tally_C : gmap ascii Z :=
  pos_dict {| n_a := 0; n_t := 0; n_g := 0; n_c := 1; n_n := 0; n_d := 0 |}.
Definition tally_T : gmap ascii Z :=
  pos_dict {| n_a := 0; n_t := 1; n_g := 0; n_c := 0; n_n := 0; n_d := 0 |}.
Definition tally_A : gmap ascii Z :=
  pos_dict {| n_a := 1; n_t := 0; n_g := 0; n_c := 0; n_n := 0; n_d := 0 |}.
Definition tally_G : gmap ascii Z :=
  pos_dict {| n_a := 0; n_t := 0; n_g := 1; n_c := 0; n_n := 0; n_d := 0 |}.

(** An alignment file holding the given reads on chr8 over [99, 100). *)
Definition bam_of (reads : list read) (contig : string) (start stop : Z)
  : list read :=
  if bool_decide (contig = "chr8"%string ∧ start = 99 ∧ stop = 100)
  then reads else [].

(** The substitution T>C at position 100, with one sample. *)
Definition record_T_C (chr : string) : vcf_record :=
  {| chrom := chr; pos := 100; ref := "T"; alts := Some ["C"%string];
     samples := [("S1"%string, None)]; filter := [] |}.

(** A deletion AT>A at position 100. *)
Definition record_AT_A : vcf_record :=
  {| chrom := "chr8"; pos := 100; ref := "AT"; alts := Some ["A"%string];
     samples := [("S1"%string, None)]; filter := [] |}.

(** ** Notions used for the further properties *)

(** Field-wise sum of two sets of counters. *)
Definition counters_add (c d : counters) : counters :=
  {| n_a := n_a c + n_a d; n_t := n_t c + n_t d; n_g := n_g c + n_g d;
     n_c := n_c c + n_c d; n_n := n_n c + n_n d; n_d := n_d c + n_d d |}.

(** The reads of a list whose coordinate mapping does not hold the
    coordinate. *)
Definition reads_missing (record_pos : Z) (inp_lst : list read) : list read :=
  List.filter
    (λ rd, bool_decide (Some record_pos ∉ get_reference_positions rd))
    inp_lst.

(** The first loop of [pos_checker] on its own: the molecules of a read
    list, in the order of their first read. *)
Definition umi_groups (bam_lst : list read)
  : list (string * umi_add) * option exn :=
  for_each (λ rd d, commit d (group_read rd d)) bam_lst [].

(** The reads of a molecule, and of all the molecules. *)
Definition group_reads (v : umi_add) : list read :=
  Forward_Molecule_lst v ++ Reverse_Molecule_lst v.

Definition grouped_reads (umi_dict : list (string * umi_add)) : list read :=
  flat_map (λ kv, group_reads kv.2) umi_dict.

(** The strand of the original molecule that a read stands for: forward
    for a first mate mapped forward and a second mate mapped reverse. *)
Definition read_strand (rd : read) : strand :=
  if bool_decide (is_read1 rd = negb (is_reverse rd))
  then Forward_Molecule else Reverse_Molecule.

(** The molecule key built from two barcodes for a strand. *)
Definition molecule_key (s : strand) (umi_l umi_r : string) : string :=
  match s with
  | Forward_Molecule => umi_l +:+ "_" +:+ umi_r
  | Reverse_Molecule => umi_r +:+ "_" +:+ umi_l
  end.

(** Every read of a molecule has the key of the molecule and lies in the
    list of its own strand. *)
Definition group_filed (kv : string * umi_add) : Prop :=
  Forall (λ rd, umi_id_of rd = Ok (Forward_Molecule, kv.1))
    (Forward_Molecule_lst kv.2)
  ∧ Forall (λ rd, umi_id_of rd = Ok (Reverse_Molecule, kv.1))
      (Reverse_Molecule_lst kv.2).

(** What the first loop keeps true of [umi_dict]: the keys are distinct,
    no molecule is without a read, every read is filed under its own key
    and strand. *)
Definition umi_dict_wf (umi_dict : list (string * umi_add)) : Prop :=
  NoDup umi_dict.*1
  ∧ Forall (λ kv, group_reads kv.2 ≠ []) umi_dict
  ∧ Forall group_filed umi_dict.

(** A support record in which the three counters of the allele [a] are
    [x], [y] and [z]. *)
Definition bump (a : ascii) (x y z : Z) (s : sup) : sup :=
  {| sup_Forward_Single := <[a := x]> (sup_Forward_Single s);
     sup_Reverse_Single := <[a := y]> (sup_Reverse_Single s);
     sup_Paired := <[a := z]> (sup_Paired s) |}.

(** The effect of one molecule on the counters of [a]: three increments,
    or an exception. *)
Definition bump_by (r : result (Z * Z * Z)) (a : ascii) (x y z : Z) (s : sup)
  : result sup :=
  match r with
  | Ok (dx, dy, dz) => Ok (bump a (x + dx) (y + dy) (z + dz) s)
  | Raise e => Raise e
  end.

(** A statement of [sup_count] acts on the counters of [a] by adding
    increments that do not depend on the counters, or raises
    [KeyError]. *)
Definition step_like (a : ascii) (f : sup → result sup) : Prop :=
  ∃ r, (∀ e, r = Raise e → e = KeyError)
       ∧ ∀ s x y z, f (bump a x y z s) = bump_by r a x y z s.

(** The three dictionaries of a support record have the key set [K]. *)
Definition sup_keys (s : sup) (K : gset ascii) : Prop :=
  dom (sup_Forward_Single s) = K ∧ dom (sup_Reverse_Single s) = K
  ∧ dom (sup_Paired s) = K.

(** What identifies a variant record: chromosome, position and alleles. *)
Definition record_key (r : vcf_record)
  : string * Z * string * option (list string) :=
  (chrom r, pos r, ref r, alts r).

(** The query that [vcf_extract] sends for a record. *)
Definition record_query (r : vcf_record) : string * Z * Z :=
  ("chr8"%string, pos r - 1, pos r - 1 + 1).

(** A written record is the record it was copied from, with the same
    samples in the same order and the same filters, ["PASS"] apart. *)
Definition annotated_from (r n : vcf_record) : Prop :=
  record_key n = record_key r
  ∧ (samples n).*1 = (samples r).*1
  ∧ ∀ f, f ∈ filter r → f ≠ "PASS"%string → f ∈ filter n.

(** ** Further sample data *)

(** A read whose identifier has no ["_"] and holds a ["+"]. *)
Definition read_no_underscore : read :=
  read_at true false "readname+CCCGGG" "ACG".

(** A deletion TT>T at position 100: two bases, one distinct character. *)
Definition record_TT_T : vcf_record :=
  {| chrom := "chr8"; pos := 100; ref := "TT"; alts := Some ["T"%string];
     samples := [("S1"%string, None)]; filter := [] |}.

(** A record with the reference AT and no alternate allele. *)
Definition record_AT_none : vcf_record :=
  {| chrom := "chr8"; pos := 100; ref := "AT"; alts := None;
     samples := [("S1"%string, None)]; filter := [] |}.

(** The substitution T>C at position 100 with the filter ["PASS"]. *)
Definition record_T_C_pass : vcf_record :=
  {| chrom := "chr8"; pos := 100; ref := "T"; alts := Some ["C"%string];
     samples := [("S1"%string, None)]; filter := ["PASS"%string] |}.

(** * Properties *)

(** ** Loops *)

Lemma for_each_app {S X : Type} (body : X → S → S * option exn)
    (xs ys : list X) (s : S) :
  for_each body (xs ++ ys) s =
  match for_each body xs s with
  | (s', None) => for_each body ys s'
  | (s', Some e) => (s', Some e)
  end.
Proof.
  revert s. induction xs as [|x xs IH]; intros s; simpl; [done|].
  destruct (body x s) as [s' [e|]]; [done|apply IH].
Qed.

(** An invariant of the state and a property of the pending exception
    that every iteration keeps are kept by the loop. *)
Lemma for_each_inv {S X : Type} (P : S → Prop) (Q : exn → Prop)
    (body : X → S → S * option exn) (xs : list X) (s : S) :
  (∀ x s0, P s0 → P (body x s0).1 ∧ ∀ e, (body x s0).2 = Some e → Q e) →
  P s →
  P (for_each body xs s).1 ∧ ∀ e, (for_each body xs s).2 = Some e → Q e.
Proof.
  intros Hbody. revert s.
  induction xs as [|x xs IH]; intros s Hs; simpl; [by split|].
  destruct (Hbody x s Hs) as [HP HQ].
  destruct (body x s) as [s' [e|]]; simpl in *; [by split|by apply IH].
Qed.

(** ** Python lists and dictionaries *)

Lemma index_Some {A : Type} `{EqDecision A} (x : A) (l : list A) (i : nat) :
  index x l = Some i ↔ l !! i = Some x ∧ ∀ j, (j < i)%nat → l !! j ≠ Some x.
Proof.
  unfold index. split.
  - destruct (list_find _ l) as [[k y]|] eqn:E; simpl; [|done].
    intros [= ->]. apply list_find_Some in E as (Hl & -> & Hmin).
    split; [done|]. intros j Hj Hlj. by apply (Hmin j x).
  - intros [Hl Hmin].
    assert (list_find (λ y, y = x) l = Some (i, x)) as ->; [|done].
    apply list_find_Some. split_and!; [done..|].
    intros j y Hy Hj ->. by apply (Hmin j).
Qed.

Lemma index_None {A : Type} `{EqDecision A} (x : A) (l : list A) :
  index x l = None ↔ x ∉ l.
Proof.
  unfold index. rewrite fmap_None, list_find_None, Forall_forall.
  split; [intros Hall Hx; by apply (Hall x)|intros Hx y Hy ->; done].
Qed.

Lemma length_list_ascii_of_string (s : string) :
  List.length (list_ascii_of_string s) = String.length s.
Proof. induction s as [|c s IH]; simpl; [done|by rewrite IH]. Qed.

Lemma truthy_empty {K : Type} `{Countable K} {V : Type} `{EqDecision V} :
  truthy (∅ : gmap K V) = false.
Proof. unfold truthy. by rewrite bool_decide_eq_false_2; [|intros ?]. Qed.

Lemma truthy_insert {K : Type} `{Countable K} {V : Type} `{EqDecision V}
    (k : K) (v : V) (d : gmap K V) :
  truthy (<[k := v]> d) = true.
Proof. unfold truthy. apply bool_decide_eq_true_2, insert_non_empty. Qed.

Lemma getitem_Some {K : Type} `{Countable K} {V : Type} (d : gmap K V)
    (k : K) (v : V) :
  d !! k = Some v → getitem d k = Ok v.
Proof. intros Hv. unfold getitem. by rewrite Hv. Qed.

Lemma getitem_raise {K : Type} `{Countable K} {V : Type} (d : gmap K V)
    (k : K) (e : exn) :
  getitem d k = Raise e → e = KeyError.
Proof. unfold getitem. destruct (d !! k); congruence. Qed.

Lemma split_nonempty (sep : ascii) (s : string) : split sep s ≠ [].
Proof.
  induction s as [|c s IH]; simpl; [done|].
  case_decide; [done|]. by destruct (split sep s).
Qed.

Lemma alist_set_Forall {V : Type} (P : string * V → Prop) (k : string) (v : V)
    (d : list (string * V)) :
  (∀ k', P (k', v)) → Forall P d → Forall P (alist_set k v d).
Proof.
  intros Hv. induction 1 as [|[k' v'] d Hx Hd IH]; simpl.
  - by constructor.
  - case_decide; constructor; auto.
Qed.

(** ** The base tally *)

Lemma normalize_base_other (b : ascii) :
  b ≠ "A" → b ≠ "T" → b ≠ "G" → b ≠ "C" → normalize_base b = "N".
Proof.
  intros. unfold normalize_base. rewrite bool_decide_eq_false_2; [done|].
  rewrite !elem_of_cons, elem_of_nil. tauto.
Qed.

(** C6.  A read in whose index-to-coordinate mapping the target
    coordinate is found at index [i] is tallied under the base at index
    [i] of its query sequence when that base is one of A, T, G, C, and
    under N for any other base (a lower-case letter included); a read
    whose mapping does not hold the coordinate is tallied under the gap
    symbol. *)
Theorem pos_hits_base_call (rd : read) (target : Z) (s : ascii) :
  base_call_spec rd target s → pos_hits [rd] target = Ok (tally_of s).
Proof.
  intros [i b Hi Hmin Hb | Habs]; unfold pos_hits; simpl; unfold pos_hits_read.
  - assert (index (Some target) (get_reference_positions rd) = Some i) as ->
      by (by apply index_Some).
    rewrite Hb.
    repeat case_decide; subst; simpl; try reflexivity.
    by rewrite normalize_base_other.
  - assert (index (Some target) (get_reference_positions rd) = None) as ->
      by (by apply index_None).
    reflexivity.
Qed.

Lemma pos_hits_base_call_witness :
  base_call_spec read_fwd_C 99 "C" ∧ pos_hits [read_fwd_C] 99 = Ok (tally_of "C").
Proof.
  assert (base_call_spec read_fwd_C 99 "C") as H.
  { apply (call_found read_fwd_C 99 1 "C"); [reflexivity| |reflexivity].
    intros j Hj. assert (j = 0%nat) as -> by lia. simpl. discriminate. }
  split; [exact H|apply (pos_hits_base_call read_fwd_C 99 "C" H)].
Defined.

Lemma pos_hits_read_counts (record_pos : Z) (rd : read) (c : counters) :
  read_covered rd → counters_nonneg c →
  ∃ c', pos_hits_read record_pos rd c = Ok c'
        ∧ counters_nonneg c' ∧ counters_sum c' = counters_sum c + 1.
Proof.
  intros Hcov Hc. unfold pos_hits_read.
  destruct (index _ _) as [i|] eqn:Hidx.
  - apply index_Some in Hidx as [Hi _].
    apply lookup_lt_Some in Hi.
    destruct (list_ascii_of_string (query_sequence rd) !! i) as [b|] eqn:Hb.
    + unfold counters_nonneg, counters_sum in *.
      repeat case_decide; eexists; (split; [done|]); simpl; lia.
    + apply lookup_ge_None in Hb. rewrite length_list_ascii_of_string in Hb.
      unfold read_covered in Hcov. lia.
  - unfold counters_nonneg, counters_sum in *.
    eexists; (split; [done|]); simpl; lia.
Qed.

Lemma pos_hits_loop_counts (record_pos : Z) (inp_lst : list read)
    (c : counters) :
  Forall read_covered inp_lst → counters_nonneg c →
  ∃ c', foldM (pos_hits_read record_pos) inp_lst c = Ok c'
        ∧ counters_nonneg c'
        ∧ counters_sum c' = counters_sum c + Z.of_nat (List.length inp_lst).
Proof.
  intros Hall. revert c.
  induction Hall as [|rd l Hrd _ IH]; intros c Hc; simpl.
  - exists c. split_and!; [done..|lia].
  - destruct (pos_hits_read_counts record_pos rd c Hrd Hc)
      as (c1 & -> & Hc1 & Hs1).
    simpl. destruct (IH c1 Hc1) as (c2 & -> & Hc2 & Hs2).
    exists c2. split_and!; [done..|lia].
Qed.

Lemma dom_pos_dict (c : counters) : dom (pos_dict c) = base_symbols.
Proof.
  unfold pos_dict, base_symbols.
  rewrite !dom_insert_L, dom_singleton_L. simpl. set_solver.
Qed.

Lemma pos_dict_lookup (c : counters) (s : ascii) (n : Z) :
  pos_dict c !! s = Some n →
  n = n_a c ∨ n = n_t c ∨ n = n_g c ∨ n = n_c c ∨ n = n_n c ∨ n = n_d c.
Proof.
  unfold pos_dict. rewrite !lookup_insert.
  repeat case_decide; try (intros [= <-]; tauto).
  rewrite lookup_singleton. case_decide; [|done]. intros [= <-]; tauto.
Qed.

(** C9.  The tally of a list of reads at a coordinate is a dictionary
    over exactly the six symbols A, T, G, C, N and the gap, its counts
    are not negative, and they add up to the number of reads: every
    read, also one that does not cover the coordinate, is counted once. *)
Theorem pos_hits_tally (inp_lst : list read) (record_pos : Z) :
  Forall read_covered inp_lst →
  ∃ t, pos_hits inp_lst record_pos = Ok t
       ∧ dom t = base_symbols
       ∧ (∀ s n, t !! s = Some n → 0 ≤ n)
       ∧ count_of t "A" + count_of t "T" + count_of t "G" + count_of t "C"
         + count_of t "N" + count_of t "-" = Z.of_nat (List.length inp_lst).
Proof.
  intros Hall. unfold pos_hits.
  destruct (pos_hits_loop_counts record_pos inp_lst counters_zero Hall)
    as (c & -> & Hc & Hs).
  { unfold counters_nonneg; simpl; lia. }
  simpl. exists (pos_dict c). split_and!; [done|apply dom_pos_dict|..].
  - intros s n Hn. apply pos_dict_lookup in Hn.
    unfold counters_nonneg in Hc.
    destruct Hn as [->|[->|[->|[->|[->| ->]]]]]; tauto.
  - change (counters_sum c = Z.of_nat (List.length inp_lst)).
    rewrite Hs. unfold counters_sum. simpl. lia.
Qed.

Lemma pos_hits_tally_witness :
  Forall read_covered [read_fwd_C; read_rev_T; read_no_plus]
  ∧ ∃ t, pos_hits [read_fwd_C; read_rev_T; read_no_plus] 99 = Ok t
         ∧ dom t = base_symbols
         ∧ (∀ s n, t !! s = Some n → 0 ≤ n)
         ∧ count_of t "A" + count_of t "T" + count_of t "G" + count_of t "C"
           + count_of t "N" + count_of t "-" = 3.
Proof.
  assert (Forall read_covered [read_fwd_C; read_rev_T; read_no_plus]) as H.
  { repeat constructor; unfold read_covered; simpl; lia. }
  split; [exact H|].
  apply (pos_hits_tally [read_fwd_C; read_rev_T; read_no_plus] 99 H).
Defined.

(** ** The verdict of a paired molecule *)

Lemma ffpe_finder_step_raise (fh rh : gmap ascii Z) (var_call r_base : ascii)
    (d : finder_dicts) (e : exn) :
  ffpe_finder_step fh rh var_call r_base d = Raise e → e = KeyError.
Proof.
  unfold ffpe_finder_step, getitem.
  destruct (fh !! var_call) as [fv|], (rh !! var_call) as [rv|],
    (fh !! r_base) as [fb|], (rh !! r_base) as [rb|]; simpl;
    repeat (match goal with
            | |- context [gt0 ?x] => destruct (gt0 x); simpl
            | |- context [eq0 ?x] => destruct (eq0 x); simpl
            end); congruence.
Qed.

Lemma ffpe_finder_step_out_dict (fh rh : gmap ascii Z)
    (var_call r_base : ascii) (d d' : finder_dicts) :
  ffpe_finder_step fh rh var_call r_base d = Ok d' → out_dict d' = out_dict d.
Proof.
  unfold ffpe_finder_step, getitem.
  destruct (fh !! var_call) as [fv|], (rh !! var_call) as [rv|],
    (fh !! r_base) as [fb|], (rh !! r_base) as [rb|]; simpl;
    repeat (match goal with
            | |- context [gt0 ?x] => destruct (gt0 x); simpl
            | |- context [eq0 ?x] => destruct (eq0 x); simpl
            end); try congruence; by intros [= <-].
Qed.

(** X3.  Whatever the tallies and the alleles, [ffpe_finder] returns, and the
    category ["Other Mutation Hits"] of its result is empty. *)
Lemma ffpe_finder_other_empty (base_res : base_res_t)
    (ref_var ref_base : list ascii) (umi_key : string) :
  ∃ vd, ffpe_finder base_res ref_var ref_base umi_key = Ok vd
        ∧ Other_Mutation_Hits vd = ∅.
Proof.
  unfold ffpe_finder.
  assert (out_dict (ffpe_finder_try base_res ref_var ref_base umi_key
                      finder_dicts_empty).1 = ∅
          ∧ ∀ e, (ffpe_finder_try base_res ref_var ref_base umi_key
                    finder_dicts_empty).2 = Some e → e = KeyError) as [Ho He].
  { unfold ffpe_finder_try.
    destruct (getitem (Forward_Hits base_res) umi_key) as [fh|e] eqn:Ef;
      [|split; [done|intros ? [= <-]; by eapply getitem_raise]].
    destruct (getitem (Reverse_Hits base_res) umi_key) as [rh|e] eqn:Er;
      [|split; [done|intros ? [= <-]; by eapply getitem_raise]].
    apply (for_each_inv (λ d, out_dict d = ∅) (λ e, e = KeyError)); [|done].
    intros var_call d1 Hd1.
    apply (for_each_inv (λ d, out_dict d = ∅) (λ e, e = KeyError)); [|done].
    intros r_base d2 Hd2. unfold commit.
    destruct (ffpe_finder_step fh rh var_call r_base d2) as [d3|e] eqn:Es;
      simpl.
    - split; [|done]. apply ffpe_finder_step_out_dict in Es. congruence.
    - split; [done|]. intros ? [= <-]. by eapply ffpe_finder_step_raise. }
  destruct (ffpe_finder_try _ _ _ _ _) as [d [e|]]; simpl in *.
  - rewrite (He e eq_refl). by eexists.
  - by eexists.
Qed.

(** C8, as amended.  For a paired molecule, one alternate allele and one
    reference base that are both keys of the two tallies, [ffpe_finder]
    fills exactly one of its four categories.  The alternate is judged
    before the reference base: support for it on both strands gives a
    Mutation hit, support on one strand and a zero count on the other
    gives an FFPE hit, whatever the counts of the reference base are. *)
Theorem ffpe_finder_one_category (base_res : base_res_t) (umi_key : string)
    (fh rh : gmap ascii Z) (var_call r_base : ascii) (fv rv : Z) :
  Forward_Hits base_res !! umi_key = Some fh →
  Reverse_Hits base_res !! umi_key = Some rh →
  fh !! var_call = Some fv → rh !! var_call = Some rv →
  r_base ∈ dom fh → r_base ∈ dom rh →
  ∃ vd, ffpe_finder base_res [var_call] [r_base] umi_key = Ok vd
        ∧ categories_produced vd = 1%nat
        ∧ (fv > 0 ∧ rv > 0 → truthy (Mutation_Hits vd) = true)
        ∧ ((fv > 0 ∧ rv = 0) ∨ (rv > 0 ∧ fv = 0) →
           truthy (FFPE_Hits vd) = true).
Proof.
  intros Hf Hr Hfv Hrv [fb Hfb]%elem_of_dom [rb Hrb]%elem_of_dom.
  unfold ffpe_finder, ffpe_finder_try.
  rewrite (getitem_Some _ _ _ Hf), (getitem_Some _ _ _ Hr). simpl.
  unfold ffpe_finder_step.
  rewrite (getitem_Some _ _ _ Hfv), (getitem_Some _ _ _ Hrv),
    (getitem_Some _ _ _ Hfb), (getitem_Some _ _ _ Hrb). simpl.
  unfold gt0, eq0.
  repeat (case_bool_decide; simpl);
    eexists; (split; [reflexivity|]);
    unfold categories_produced; simpl;
    rewrite ?truthy_insert, ?truthy_empty; simpl;
    (split_and!; [reflexivity|intros; try reflexivity; lia..]).
Qed.

Lemma ffpe_finder_one_category_witness :
  ∃ vd, ffpe_finder
          {| Forward_Reads := [read_fwd_C]; Reverse_Reads := [read_rev_T];
             Forward_Hits := {["AAATTT_CCCGGG"%string := tally_C]};
             Reverse_Hits := {["AAATTT_CCCGGG"%string := tally_T]} |}
          ["C"] ["T"] "AAATTT_CCCGGG" = Ok vd
        ∧ categories_produced vd = 1%nat
        ∧ (1 > 0 ∧ 0 > 0 → truthy (Mutation_Hits vd) = true)
        ∧ ((1 > 0 ∧ 0 = 0) ∨ (0 > 0 ∧ 1 = 0) → truthy (FFPE_Hits vd) = true).
Proof.
  apply (ffpe_finder_one_category _ "AAATTT_CCCGGG" tally_C tally_T "C" "T" 1 0).
  - reflexivity.
  - reflexivity.
  - reflexivity.
  - reflexivity.
  - vm_compute. reflexivity.
  - vm_compute. reflexivity.
Defined.

(** C8, as first stated, fails: for the paired molecule made of
    [read_fwd_C] and [read_rev_T] and the alternate allele ["*"], which
    is not a key of a tally, the lookup raises [KeyError], the handler of
    [ffpe_finder] returns, and none of the four categories holds a hit. *)
Lemma ffpe_finder_no_category :
  verdict_counts <$> pos_checker [read_fwd_C; read_rev_T] 99 ["*"] ["T"]
  = Ok [Some 0%nat].
Proof. vm_compute. reflexivity. Qed.

(** C3.  The molecule made of [read_fwd_A] and [read_rev_G] meets none
    of the rules for the alternate C and the reference T, and its
    tallies are stored under ["Mutation Hits"], the last branch of
    [ffpe_finder] writing to [mut_dict]; ["Other Mutation Hits"] stays
    empty. *)
Theorem ffpe_finder_unresolved_is_mutation :
  pos_checker [read_fwd_A; read_rev_G] 99 ["C"] ["T"]
  = Ok [("AAATTT_CCCGGG"%string,
         {| Forward_Single := ∅; Reverse_Single := ∅;
            Variant_Hits :=
              Some {| FFPE_Hits := ∅;
                      Mutation_Hits :=
                        {["C" := {| Forward_Molecule_hits := tally_A;
                                    Reverse_Molecule_hits := tally_G |}]};
                      Reference_Hits := ∅;
                      Other_Mutation_Hits := ∅ |} |})].
Proof. vm_compute. reflexivity. Qed.

(** ** Grouping the reads of a position *)

Lemma umi_id_of_raise (rd : read) (e : exn) :
  umi_id_of rd = Raise e → e = IndexError.
Proof.
  unfold umi_id_of, list_last, list_getitem.
  destruct (last _) as [umi|]; simpl; [|congruence].
  destruct (split "+" umi !! 0%nat); simpl; [|congruence].
  destruct (split "+" umi !! 1%nat); simpl; congruence.
Qed.

Lemma umi_id_of_short (rd : read) :
  (List.length (barcode_fields rd) < 2)%nat → umi_id_of rd = Raise IndexError.
Proof.
  unfold barcode_fields, umi_id_of, list_last, list_getitem.
  destruct (last _) as [umi|]; simpl; [|done].
  pose proof (split_nonempty "+" umi) as Hne.
  destruct (split "+" umi) as [|umi_l [|umi_r brc]]; simpl; [done|done|lia].
Qed.

Lemma group_read_raise (rd : read) (d : list (string * umi_add)) (e : exn) :
  group_read rd d = Raise e → e = IndexError.
Proof.
  unfold group_read.
  destruct (umi_id_of rd) as [[s k]|e'] eqn:E; simpl.
  - destruct (alist_lookup k d); congruence.
  - intros [= <-]. by eapply umi_id_of_raise.
Qed.

Lemma group_loop_short (bam_lst : list read) (d : list (string * umi_add)) :
  Exists (λ rd, (List.length (barcode_fields rd) < 2)%nat) bam_lst →
  (for_each (λ rd d, commit d (group_read rd d)) bam_lst d).2
  = Some IndexError.
Proof.
  intros Hex. revert d.
  induction bam_lst as [|rd l IH]; intros d; [by apply Exists_nil in Hex|].
  simpl. destruct (group_read rd d) as [d1|e] eqn:E; simpl.
  - apply Exists_cons in Hex as [Hrd|Hl]; [|by apply IH].
    apply umi_id_of_short in Hrd. unfold group_read in E.
    rewrite Hrd in E. discriminate.
  - by rewrite (group_read_raise _ _ _ E).
Qed.

(** When the identifier of some read of the position yields fewer than
    two barcode fields, [pos_checker] raises [IndexError], which its
    handler for [KeyError] does not catch. *)
Lemma pos_checker_unparseable_umi (bam_lst : list read) (record_pos : Z)
    (ref_var ref_base : list ascii) :
  Exists (λ rd, (List.length (barcode_fields rd) < 2)%nat) bam_lst →
  pos_checker bam_lst record_pos ref_var ref_base = Raise IndexError.
Proof.
  intros Hex. unfold pos_checker.
  pose proof (group_loop_short bam_lst [] Hex) as Hloop.
  destruct (for_each _ bam_lst []) as [d e]. simpl in Hloop. by subst.
Qed.

(** ** The second loop of [pos_checker] *)

Lemma pos_checker_branches_f_s_hits (record_pos : Z)
    (ref_var ref_base : list ascii) (umi_key : string) (v : umi_add)
    (st st' : loop_vars) :
  pos_checker_branches record_pos ref_var ref_base umi_key v st = Ok st' →
  f_s_hits st' = f_s_hits st ∧ pos_res st' = pos_res st.
Proof.
  unfold pos_checker_branches.
  destruct (truthy_list (Forward_Molecule_lst v)),
    (truthy_list (Reverse_Molecule_lst v)); simpl;
    try (by intros [= <-]).
  - destruct (pos_hits (Forward_Molecule_lst v) record_pos); simpl; [|done].
    destruct (pos_hits (Reverse_Molecule_lst v) record_pos); simpl; [|done].
    destruct (ffpe_finder _ _ _ _); simpl; [|done]. by intros [= <-].
  - destruct (pos_hits (Reverse_Molecule_lst v) record_pos); simpl; [|done].
    by intros [= <-].
Qed.

(** X4.  No molecule of a position is given a forward single-strand tally:
    the branch that would compute it is the [elif] of its own
    condition. *)
Lemma pos_checker_forward_single_empty (bam_lst : list read) (record_pos : Z)
    (ref_var ref_base : list ascii) (res : list (string * entry)) :
  pos_checker bam_lst record_pos ref_var ref_base = Ok res →
  Forall (λ kv, Forward_Single kv.2 = ∅) res.
Proof.
  unfold pos_checker.
  destruct (for_each _ bam_lst []) as [umi_dict [[]|]];
    try done; [by intros [= <-]|].
  set (P := λ st : loop_vars,
         f_s_hits st = ∅ ∧ Forall (λ kv, Forward_Single kv.2 = ∅) (pos_res st)).
  match goal with
  | |- context [for_each ?body ?xs ?s] =>
      destruct (for_each_inv P (λ _, True) body xs s) as [[_ HP] _]
  end.
  - intros [umi_key v] st [Hf Hres]. split; [|done].
    unfold commit, pos_checker_key.
    destruct (pos_checker_branches _ _ _ _ _ _) as [st'|e] eqn:E; simpl;
      [|by split].
    apply pos_checker_branches_f_s_hits in E as [E1 E2].
    unfold P. simpl. rewrite E1, Hf, E2. split; [done|].
    by apply alist_set_Forall.
  - by split.
  - destruct (for_each _ _ loop_vars_init) as [st [[]|]];
      simpl in *; try done; by intros [= <-].
Qed.

(** ** Support counts on the sample reads *)

(** C2.  A position whose only read is the forward-strand read
    [read_fwd_single_C], which shows the alternate C: the tally of the
    read holds one C, yet the molecule gets no forward single-strand
    tally and the Forward-Single counter of C is 0.  Behind the paired
    molecule of [read_fwd_C] and [read_rev_T], the same singleton is
    stored with the verdict of that molecule, and the Paired counter of
    C rises from 1 to 2. *)
Theorem forward_singleton_support :
  pos_hits [read_fwd_single_C] 99 = Ok tally_C
  ∧ pos_checker [read_fwd_single_C] 99 ["C"] ["T"]
    = Ok [("ACACAC_GTGTGT"%string,
           {| Forward_Single := ∅; Reverse_Single := ∅;
              Variant_Hits := None |})]
  ∧ position_support [read_fwd_single_C] 99 "C" "T"
    = Ok ((Some 0, Some 0, Some 0), (Some 0, Some 0, Some 0))
  ∧ position_support [read_fwd_C; read_rev_T] 99 "C" "T"
    = Ok ((Some 1, Some 0, Some 0), (Some 0, Some 0, Some 0))
  ∧ position_support [read_fwd_C; read_rev_T; read_fwd_single_C] 99 "C" "T"
    = Ok ((Some 2, Some 0, Some 0), (Some 0, Some 0, Some 0)).
Proof. split_and!; vm_compute; reflexivity. Qed.

(** C7.  The same two molecules, a reverse singleton and a paired
    molecule, processed in the two possible orders: the counters
    (Paired, Forward-Single, Reverse-Single) of the alternate C are
    (1, 0, 2) in one order and (2, 0, 1) in the other. *)
Theorem support_depends_on_order :
  position_support [read_rev_single_C; read_fwd_C; read_rev_T] 99 "C" "T"
  = Ok ((Some 1, Some 0, Some 2), (Some 0, Some 0, Some 0))
  ∧ position_support [read_fwd_C; read_rev_T; read_rev_single_C] 99 "C" "T"
    = Ok ((Some 2, Some 0, Some 1), (Some 0, Some 0, Some 0)).
Proof. split; vm_compute; reflexivity. Qed.

(** C1.  The paired molecule whose forward tally holds one C and whose
    reverse tally holds one T, for the reference T and the alternate C:
    the verdict is an FFPE hit, the Paired counter of C is 1 and the
    FFPE filter of the record is set; the Paired counter of T is 0. *)
Theorem ffpe_scenario :
  pos_hits [read_fwd_C] 99 = Ok tally_C
  ∧ pos_hits [read_rev_T] 99 = Ok tally_T
  ∧ pos_checker [read_fwd_C; read_rev_T] 99 ["C"] ["T"]
    = Ok [("AAATTT_CCCGGG"%string,
           {| Forward_Single := ∅; Reverse_Single := ∅;
              Variant_Hits :=
                Some {| FFPE_Hits :=
                          {["C" := {| Forward_Molecule_hits := tally_C;
                                      Reverse_Molecule_hits := tally_T |}]};
                        Mutation_Hits := ∅;
                        Reference_Hits := ∅;
                        Other_Mutation_Hits := ∅ |} |})]
  ∧ position_support [read_fwd_C; read_rev_T] 99 "C" "T"
    = Ok ((Some 1, Some 0, Some 0), (Some 0, Some 0, Some 0))
  ∧ vcf_extract (bam_of [read_fwd_C; read_rev_T]) [record_T_C "chr8"]
    = ({| fetched := [("chr8"%string, 99, 100)];
          output_vcf :=
            [{| chrom := "chr8"; pos := 100; ref := "T";
                alts := Some ["C"%string];
                samples := [("S1"%string, Some (PyStr "1:0:00:0:0"))];
                filter := ["FFPE"%string] |}] |}, None).
Proof. split_and!; vm_compute; reflexivity. Qed.

(** ** Annotating the records *)

(** C5, as amended.  A record that has alternate alleles and whose
    reference allele or alternate alleles hold more than one distinct
    character is skipped as a whole: no read is fetched for it and
    nothing is written for it, the record does not reach the output, and
    the records after it are processed as if it had not been there. *)
Theorem vcf_extract_skips_unsupported (bam_file : string → Z → Z → list read)
    (before after : list vcf_record) (record : vcf_record)
    (n_alt : list string) :
  alts record = Some n_alt →
  (1 < size (set_of_string (ref record))
   ∨ 1 < size (set_of_string (join n_alt)))%nat →
  vcf_extract bam_file (before ++ record :: after)
  = vcf_extract bam_file (before ++ after).
Proof.
  intros Halts Hshape. unfold vcf_extract. rewrite !for_each_app.
  destruct (for_each _ before io_empty) as [w [e|]]; [done|].
  simpl. unfold vcf_extract_record at 1. rewrite Halts.
  by rewrite bool_decide_eq_true_2.
Qed.

Lemma vcf_extract_skips_unsupported_witness :
  alts record_AT_A = Some ["A"%string]
  ∧ (1 < size (set_of_string (ref record_AT_A))
     ∨ 1 < size (set_of_string (join ["A"%string])))%nat
  ∧ vcf_extract (bam_of [read_fwd_C; read_rev_T])
      ([record_T_C "chr8"] ++ record_AT_A :: [record_T_C "chr1"])
    = vcf_extract (bam_of [read_fwd_C; read_rev_T])
        ([record_T_C "chr8"] ++ [record_T_C "chr1"]).
Proof.
  assert (1 < size (set_of_string (ref record_AT_A))
          ∨ 1 < size (set_of_string (join ["A"%string])))%nat as H.
  { left. vm_compute. lia. }
  split; [reflexivity|]. split; [exact H|].
  apply (vcf_extract_skips_unsupported _ [record_T_C "chr8"]
           [record_T_C "chr1"] record_AT_A ["A"%string] eq_refl H).
Defined.

(** C5, as first stated, fails in three ways.  The deletion
    [record_AT_A] is skipped but not passed through: the output of a run
    over it and a substitution holds the annotated substitution only.
    The deletion [record_TT_T], two bases of one character, is not
    skipped: reads are fetched for it and it is written with an
    annotation, like a substitution.  The record [record_AT_none],
    without alternate allele, stops the run with a [TypeError] before
    the test of the allele lengths, and the record after it is not
    processed. *)
Lemma vcf_extract_unsupported_shapes :
  vcf_extract (bam_of [read_fwd_C; read_rev_T])
    [record_AT_A; record_T_C "chr8"]
  = ({| fetched := [("chr8"%string, 99, 100)];
        output_vcf :=
          [{| chrom := "chr8"; pos := 100; ref := "T";
              alts := Some ["C"%string];
              samples := [("S1"%string, Some (PyStr "1:0:00:0:0"))];
              filter := ["FFPE"%string] |}] |}, None)
  ∧ vcf_extract (bam_of [read_fwd_C; read_rev_T]) [record_TT_T]
    = ({| fetched := [("chr8"%string, 99, 100)];
          output_vcf :=
            [{| chrom := "chr8"; pos := 100; ref := "TT";
                alts := Some ["T"%string];
                samples := [("S1"%string, Some (PyStr "1:0:01:0:0"))];
                filter := ["FFPE"%string] |}] |}, None)
  ∧ vcf_extract (bam_of [read_fwd_C; read_rev_T])
      [record_AT_none; record_T_C "chr8"]
    = (io_empty, Some TypeError).
Proof. split_and!; vm_compute; reflexivity. Qed.

(** The annotation of a record does not look at its chromosome. *)
Lemma annotate_same_but_chrom (r1 r2 : vcf_record) (record_pos : Z)
    (n_ref n_alt : gset ascii) (bam_lst : list read) :
  same_but_chrom r1 r2 →
  match annotate r1 record_pos n_ref n_alt bam_lst,
        annotate r2 record_pos n_ref n_alt bam_lst with
  | Ok n1, Ok n2 =>
      same_but_chrom n1 n2 ∧ chrom n1 = chrom r1 ∧ chrom n2 = chrom r2
  | Raise e1, Raise e2 => e1 = e2
  | _, _ => False
  end.
Proof.
  intros (Hpos & Href & Halts & Hsamples & Hfilter). unfold annotate.
  rewrite <- Hsamples, <- Hfilter, <- Hpos, <- Href, <- Halts.
  destruct (pos_checker _ _ _ _) as [ffpe_data|]; simpl; [|done].
  destruct (sup_count _ _ _) as [pos_sup|]; simpl; [|done].
  destruct (foldM _ (elements n_alt) _) as [var_sd|]; simpl; [|done].
  destruct (foldM _ (elements n_ref) _) as [ref_sd|]; simpl; [|done].
  destruct (foldM _ (samples r1) _) as [samples'|]; simpl; [|done].
  by unfold same_but_chrom.
Qed.

(** C10.  The reads of a record are fetched on the contig chr8 over the
    interval from [pos - 1] to [pos], whatever the chromosome of the
    record: two records that differ in their chromosome only, and two
    alignment files that hold the same reads on chr8 over that
    interval, give the same fetches, the same outcome and, but for the
    chromosome that is copied, the same written record. *)
Theorem vcf_extract_record_ignores_chrom
    (bam1 bam2 : string → Z → Z → list read) (r1 r2 : vcf_record) (w : io) :
  same_but_chrom r1 r2 →
  bam1 "chr8"%string (pos r1 - 1) (pos r1)
  = bam2 "chr8"%string (pos r1 - 1) (pos r1) →
  let res1 := vcf_extract_record bam1 r1 w in
  let res2 := vcf_extract_record bam2 r2 w in
  res1.2 = res2.2
  ∧ fetched res1.1 = fetched res2.1
  ∧ (fetched res1.1 = fetched w
     ∨ fetched res1.1 = fetched w ++ [("chr8"%string, pos r1 - 1, pos r1)])
  ∧ ((output_vcf res1.1 = output_vcf w ∧ output_vcf res2.1 = output_vcf w)
     ∨ ∃ n1 n2, output_vcf res1.1 = output_vcf w ++ [n1]
                ∧ output_vcf res2.1 = output_vcf w ++ [n2]
                ∧ same_but_chrom n1 n2
                ∧ chrom n1 = chrom r1 ∧ chrom n2 = chrom r2).
Proof.
  intros Hsame Hbam.
  pose proof Hsame as (Hpos & Href & Halts & _).
  unfold vcf_extract_record. rewrite <- Hpos, <- Href, <- Halts.
  destruct (alts r1) as [n_alt|]; simpl; [|tauto].
  case_bool_decide; simpl; [tauto|].
  replace (pos r1 - 1 + 1) with (pos r1) by lia. rewrite <- Hbam.
  pose proof (annotate_same_but_chrom r1 r2 (pos r1 - 1)
                (set_of_string (ref r1)) (set_of_string (join n_alt))
                (bam1 "chr8"%string (pos r1 - 1) (pos r1)) Hsame) as Hann.
  destruct (annotate r1 _ _ _ _) as [n1|e1], (annotate r2 _ _ _ _) as [n2|e2];
    simpl in *; try done.
  - split_and!; [done|done|by right|]. right. by exists n1, n2.
  - subst. split_and!; [done|done|by right|by left].
Qed.

Lemma vcf_extract_record_ignores_chrom_witness :
  let bam := bam_of [read_fwd_C; read_rev_T] in
  let res1 := vcf_extract_record bam (record_T_C "chr8") io_empty in
  let res2 := vcf_extract_record bam (record_T_C "chr1") io_empty in
  res1.2 = res2.2
  ∧ fetched res1.1 = fetched res2.1
  ∧ (fetched res1.1 = []
     ∨ fetched res1.1 = [] ++ [("chr8"%string, 100 - 1, 100)])
  ∧ ((output_vcf res1.1 = [] ∧ output_vcf res2.1 = [])
     ∨ ∃ n1 n2, output_vcf res1.1 = [] ++ [n1]
                ∧ output_vcf res2.1 = [] ++ [n2]
                ∧ same_but_chrom n1 n2
                ∧ chrom n1 = "chr8"%string ∧ chrom n2 = "chr1"%string).
Proof.
  apply (vcf_extract_record_ignores_chrom
           (bam_of [read_fwd_C; read_rev_T]) (bam_of [read_fwd_C; read_rev_T])
           (record_T_C "chr8") (record_T_C "chr1") io_empty).
  - unfold same_but_chrom. simpl. tauto.
  - reflexivity.
Defined.

(** * Further properties of the code *)

(** ** [pos_hits] *)

Lemma foldM_app {S X : Type} (body : X → S → result S) (xs ys : list X)
    (s : S) :
  foldM body (xs ++ ys) s = foldM body xs s ≫= foldM body ys.
Proof.
  revert s. induction xs as [|x xs IH]; intros s; simpl; [done|].
  destruct (body x s) as [s'|e]; simpl; [apply IH|done].
Qed.

Lemma counters_add_zero_r (c : counters) : counters_add c counters_zero = c.
Proof. destruct c. unfold counters_add. simpl. f_equal; lia. Qed.

Lemma counters_add_assoc (c d e : counters) :
  counters_add (counters_add c d) e = counters_add c (counters_add d e).
Proof. unfold counters_add. simpl. f_equal; lia. Qed.

(** What a read adds to the counters does not depend on the counters. *)
Lemma pos_hits_read_shift (record_pos : Z) (rd : read) (c : counters) :
  pos_hits_read record_pos rd c
  = counters_add c <$> pos_hits_read record_pos rd counters_zero.
Proof.
  unfold pos_hits_read.
  destruct (index _ _) as [i|]; simpl.
  - destruct (_ !! i) as [b|]; simpl; [|done].
    repeat case_decide; simpl; unfold counters_add; simpl;
      do 2 f_equal; lia.
  - unfold counters_add; simpl; do 2 f_equal; lia.
Qed.

Lemma pos_hits_loop_shift (record_pos : Z) (inp_lst : list read)
    (c : counters) :
  foldM (pos_hits_read record_pos) inp_lst c
  = counters_add c <$> foldM (pos_hits_read record_pos) inp_lst counters_zero.
Proof.
  revert c. induction inp_lst as [|rd l IH]; intros c; simpl.
  - by rewrite counters_add_zero_r.
  - rewrite (pos_hits_read_shift record_pos rd c).
    destruct (pos_hits_read record_pos rd counters_zero) as [d|e]; simpl;
      [|done].
    rewrite (IH (counters_add c d)), (IH d).
    destruct (foldM _ l counters_zero) as [d'|e]; simpl; [|done].
    by rewrite counters_add_assoc.
Qed.

Lemma count_of_pos_dict (c : counters) (s : ascii) :
  count_of (pos_dict c) s
  = if decide (s = "A") then n_a c else if decide (s = "T") then n_t c
    else if decide (s = "G") then n_g c else if decide (s = "C") then n_c c
    else if decide (s = "N") then n_n c else if decide (s = "-") then n_d c
    else 0.
Proof.
  unfold count_of, pos_dict.
  repeat (case_decide; [subst; reflexivity|]).
  by rewrite !lookup_insert_ne, lookup_singleton_ne.
Qed.

Lemma pos_hits_Ok_inv (inp_lst : list read) (record_pos : Z)
    (t : gmap ascii Z) :
  pos_hits inp_lst record_pos = Ok t →
  ∃ c, foldM (pos_hits_read record_pos) inp_lst counters_zero = Ok c
       ∧ t = pos_dict c.
Proof.
  unfold pos_hits. destruct (foldM _ _ _) as [c|e]; simpl; [|done].
  intros [= <-]. by exists c.
Qed.

(** X1.  The tally of two read lists put one after the other is, symbol
    by symbol, the sum of their tallies. *)
Theorem pos_hits_app (l1 l2 : list read) (record_pos : Z)
    (t1 t2 : gmap ascii Z) :
  pos_hits l1 record_pos = Ok t1 →
  pos_hits l2 record_pos = Ok t2 →
  ∃ t, pos_hits (l1 ++ l2) record_pos = Ok t
       ∧ ∀ s, count_of t s = count_of t1 s + count_of t2 s.
Proof.
  intros (c1 & H1 & ->)%pos_hits_Ok_inv (c2 & H2 & ->)%pos_hits_Ok_inv.
  exists (pos_dict (counters_add c1 c2)). split.
  - unfold pos_hits. rewrite foldM_app, H1. simpl.
    rewrite pos_hits_loop_shift, H2. reflexivity.
  - intros s. rewrite !count_of_pos_dict. unfold counters_add. simpl.
    repeat case_decide; lia.
Qed.

Lemma pos_hits_app_witness :
  ∃ t, pos_hits ([read_fwd_C; read_rev_T] ++ [read_fwd_A]) 99 = Ok t
       ∧ ∀ s, count_of t s
              = count_of (pos_dict {| n_a := 0; n_t := 1; n_g := 0;
                                      n_c := 1; n_n := 0; n_d := 0 |}) s
                + count_of tally_A s.
Proof.
  apply (pos_hits_app [read_fwd_C; read_rev_T] [read_fwd_A] 99).
  - vm_compute. reflexivity.
  - vm_compute. reflexivity.
Defined.

Lemma pos_hits_loop_gap (record_pos : Z) (inp_lst : list read)
    (c c' : counters) :
  foldM (pos_hits_read record_pos) inp_lst c = Ok c' →
  n_d c' = n_d c + Z.of_nat (List.length (reads_missing record_pos inp_lst)).
Proof.
  revert c. induction inp_lst as [|rd l IH]; intros c; simpl.
  - intros [= <-]. lia.
  - destruct (pos_hits_read record_pos rd c) as [c1|e] eqn:E; simpl; [|done].
    intros Hl. apply IH in Hl. rewrite Hl. clear Hl IH.
    unfold pos_hits_read in E.
    destruct (index _ _) as [i|] eqn:Hi.
    + apply index_Some in Hi as [Hi _]. apply list_elem_of_lookup_2 in Hi.
      rewrite bool_decide_eq_false_2 by (intros Hn; by apply Hn).
      destruct (_ !! i) as [b|]; [|done].
      repeat case_decide; injection E as <-; simpl; lia.
    + apply index_None in Hi. rewrite bool_decide_eq_true_2 by done.
      injection E as <-. simpl. lia.
Qed.

(** X2.  The gap count of a tally is the number of reads whose coordinate
    mapping does not hold the coordinate: no such read is dropped and no
    other read is counted as a gap. *)
Theorem pos_hits_gap_count (inp_lst : list read) (record_pos : Z)
    (t : gmap ascii Z) :
  pos_hits inp_lst record_pos = Ok t →
  t !! "-" = Some (Z.of_nat (List.length (reads_missing record_pos inp_lst))).
Proof.
  intros (c & Hc & ->)%pos_hits_Ok_inv.
  apply pos_hits_loop_gap in Hc. simpl in Hc.
  replace (Z.of_nat (List.length (reads_missing record_pos inp_lst)))
    with (n_d c) by lia.
  reflexivity.
Qed.

Lemma pos_hits_gap_count_witness :
  pos_hits [read_fwd_C;
            {| is_read1 := true; is_reverse := false;
               query_name := "m6_AAATTT+CCCGGG"; query_sequence := "ACG";
               get_reference_positions := [Some 97; Some 98; Some 101] |}] 99
  = Ok (pos_dict {| n_a := 0; n_t := 0; n_g := 0; n_c := 1; n_n := 0;
                    n_d := 1 |})
  ∧ pos_dict {| n_a := 0; n_t := 0; n_g := 0; n_c := 1; n_n := 0;
                n_d := 1 |} !! "-" = Some 1.
Proof.
  assert (pos_hits [read_fwd_C;
            {| is_read1 := true; is_reverse := false;
               query_name := "m6_AAATTT+CCCGGG"; query_sequence := "ACG";
               get_reference_positions := [Some 97; Some 98; Some 101] |}] 99
          = Ok (pos_dict {| n_a := 0; n_t := 0; n_g := 0; n_c := 1;
                            n_n := 0; n_d := 1 |})) as H
    by (vm_compute; reflexivity).
  split; [exact H|]. apply (pos_hits_gap_count _ _ _ H).
Defined.

(** ** [ffpe_finder] and the molecule entries *)

Lemma pos_checker_forward_single_empty_witness :
  pos_checker [read_fwd_single_C; read_fwd_C; read_rev_T] 99 ["C"] ["T"]
  = Ok [("ACACAC_GTGTGT"%string,
         {| Forward_Single := ∅; Reverse_Single := ∅; Variant_Hits := None |});
        ("AAATTT_CCCGGG"%string,
         {| Forward_Single := ∅; Reverse_Single := ∅;
            Variant_Hits :=
              Some {| FFPE_Hits :=
                        {["C" := {| Forward_Molecule_hits := tally_C;
                                    Reverse_Molecule_hits := tally_T |}]};
                      Mutation_Hits := ∅; Reference_Hits := ∅;
                      Other_Mutation_Hits := ∅ |} |})]
  ∧ Forall (λ kv : string * entry, Forward_Single kv.2 = ∅)
      [("ACACAC_GTGTGT"%string,
         {| Forward_Single := ∅; Reverse_Single := ∅; Variant_Hits := None |});
        ("AAATTT_CCCGGG"%string,
         {| Forward_Single := ∅; Reverse_Single := ∅;
            Variant_Hits :=
              Some {| FFPE_Hits :=
                        {["C" := {| Forward_Molecule_hits := tally_C;
                                    Reverse_Molecule_hits := tally_T |}]};
                      Mutation_Hits := ∅; Reference_Hits := ∅;
                      Other_Mutation_Hits := ∅ |} |})].
Proof.
  match goal with
  | |- ?A ∧ _ => assert A as H by (vm_compute; reflexivity)
  end.
  split; [exact H|].
  apply (pos_checker_forward_single_empty _ _ _ _ _ H).
Defined.

(** ** Molecule keys *)

Lemma split_app_sep (sep : ascii) (a b : string) :
  split sep (a +:+ String sep b) = split sep a ++ split sep b.
Proof.
  induction a as [|c a IH]; simpl.
  - by rewrite decide_True.
  - case_decide; [by rewrite IH|].
    rewrite IH. pose proof (split_nonempty sep a) as Hne.
    by destruct (split sep a).
Qed.

Lemma split_no_sep (sep : ascii) (s : string) :
  sep ∉ list_ascii_of_string s → split sep s = [s].
Proof.
  induction s as [|c s IH]; simpl; [done|].
  rewrite not_elem_of_cons. intros [Hc Hs].
  rewrite decide_False by done. by rewrite IH.
Qed.

Lemma umi_id_of_fields (rd : read) (umi_l umi_r : string) (brc : list string) :
  barcode_fields rd = umi_l :: umi_r :: brc →
  umi_id_of rd
  = Ok (read_strand rd, molecule_key (read_strand rd) umi_l umi_r).
Proof.
  unfold barcode_fields, umi_id_of, list_last, list_getitem, read_strand.
  destruct (last _) as [umi|]; simpl; [|done].
  intros ->. simpl.
  by destruct (is_read1 rd), (is_reverse rd).
Qed.

(** X5.  The molecule key of a read named [name_L+R].  When the barcodes
    [L] and [R] hold neither ["_"] nor ["+"], the read is filed under
    the key [L_R] on the forward strand if it is a first mate mapped
    forward or a second mate mapped reverse, and under [R_L] on the
    reverse strand otherwise. *)
Theorem umi_id_of_name (rd : read) (name umi_l umi_r : string) :
  query_name rd = name +:+ "_" +:+ umi_l +:+ "+" +:+ umi_r →
  "_" ∉ list_ascii_of_string umi_l → "+" ∉ list_ascii_of_string umi_l →
  "_" ∉ list_ascii_of_string umi_r → "+" ∉ list_ascii_of_string umi_r →
  umi_id_of rd
  = Ok (read_strand rd, molecule_key (read_strand rd) umi_l umi_r).
Proof.
  intros Hname Hl1 Hl2 Hr1 Hr2.
  apply (umi_id_of_fields rd umi_l umi_r []).
  unfold barcode_fields. rewrite Hname.
  change (name +:+ "_" +:+ umi_l +:+ "+" +:+ umi_r)
    with (name +:+ String "_" (umi_l +:+ String "+" umi_r)).
  rewrite split_app_sep, last_app.
  assert ("_" ∉ list_ascii_of_string (umi_l +:+ String "+" umi_r)) as Hu.
  { clear -Hl1 Hr1. induction umi_l as [|c l IH]; simpl.
    - rewrite not_elem_of_cons. split; [done|exact Hr1].
    - simpl in Hl1. rewrite not_elem_of_cons in Hl1 |- *.
      split; [tauto|]. apply IH. tauto. }
  rewrite (split_no_sep _ _ Hu). simpl.
  by rewrite split_app_sep, !split_no_sep.
Qed.

Lemma umi_id_of_name_witness :
  umi_id_of read_rev_T = Ok (Reverse_Molecule, "AAATTT_CCCGGG"%string).
Proof.
  apply (umi_id_of_name read_rev_T "m1" "CCCGGG" "AAATTT").
  - reflexivity.
  - apply (bool_decide_unpack _). vm_compute. exact I.
  - apply (bool_decide_unpack _). vm_compute. exact I.
  - apply (bool_decide_unpack _). vm_compute. exact I.
  - apply (bool_decide_unpack _). vm_compute. exact I.
Defined.

(** ** Grouping *)

(** X6.  Two reads with the barcodes in opposite order, one standing for
    the forward and one for the reverse strand, form one molecule with
    one read on each strand. *)
Theorem umi_groups_pair (rd1 rd2 : read) (umi_l umi_r : string)
    (brc1 brc2 : list string) :
  barcode_fields rd1 = umi_l :: umi_r :: brc1 →
  barcode_fields rd2 = umi_r :: umi_l :: brc2 →
  read_strand rd1 = Forward_Molecule →
  read_strand rd2 = Reverse_Molecule →
  umi_groups [rd1; rd2]
  = ([((umi_l +:+ "_" +:+ umi_r)%string,
       {| Forward_Molecule_lst := [rd1]; Reverse_Molecule_lst := [rd2] |})],
     None).
Proof.
  intros H1 H2 Hs1 Hs2. unfold umi_groups. simpl. unfold group_read.
  rewrite (umi_id_of_fields _ _ _ _ H1), Hs1. simpl.
  rewrite (umi_id_of_fields _ _ _ _ H2), Hs2. simpl.
  by rewrite !decide_True.
Qed.

Lemma umi_groups_pair_witness :
  umi_groups [read_fwd_C; read_rev_T]
  = ([("AAATTT_CCCGGG"%string,
       {| Forward_Molecule_lst := [read_fwd_C];
          Reverse_Molecule_lst := [read_rev_T] |})], None).
Proof.
  apply (umi_groups_pair read_fwd_C read_rev_T "AAATTT" "CCCGGG" [] []);
    reflexivity.
Defined.

Lemma alist_lookup_None {V : Type} (k : string) (d : list (string * V)) :
  alist_lookup k d = None ↔ k ∉ d.*1.
Proof.
  induction d as [|[k' v] d IH]; simpl.
  - split; [intros _; apply not_elem_of_nil|done].
  - rewrite not_elem_of_cons, <- IH.
    case_decide; intuition congruence.
Qed.

Lemma alist_set_fresh {V : Type} (k : string) (v : V) (d : list (string * V)) :
  k ∉ d.*1 → alist_set k v d = d ++ [(k, v)].
Proof.
  induction d as [|[k' v'] d IH]; simpl; [done|].
  rewrite not_elem_of_cons. intros [Hk Hd].
  rewrite decide_False by done. by rewrite IH.
Qed.

Lemma alist_set_keys {V : Type} (k : string) (v v' : V)
    (d : list (string * V)) :
  alist_lookup k d = Some v → (alist_set k v' d).*1 = d.*1.
Proof.
  induction d as [|[k0 v0] d IH]; simpl; [done|].
  case_decide; simpl; [done|]. intros Hl. f_equal. by apply IH.
Qed.

Lemma alist_set_Forall_key {V : Type} (P : string * V → Prop) (k : string)
    (v : V) (d : list (string * V)) :
  P (k, v) → Forall P d → Forall P (alist_set k v d).
Proof.
  intros Hv. induction 1 as [|[k' v'] d Hx Hd IH]; simpl.
  - by constructor.
  - case_decide; subst; constructor; auto.
Qed.

Lemma alist_lookup_Forall {V : Type} (P : string * V → Prop) (k : string)
    (v : V) (d : list (string * V)) :
  alist_lookup k d = Some v → Forall P d → P (k, v).
Proof.
  intros Hl. induction 1 as [|[k' v'] d Hx Hd IH]; simpl in *; [done|].
  case_decide; [by simplify_eq|by apply IH].
Qed.

Lemma grouped_reads_set (k : string) (v v' : umi_add) (rd : read)
    (d : list (string * umi_add)) :
  alist_lookup k d = Some v →
  group_reads v' ≡ₚ rd :: group_reads v →
  grouped_reads (alist_set k v' d) ≡ₚ rd :: grouped_reads d.
Proof.
  intros Hl Hv. induction d as [|[k0 v0] d IH]; simpl in *; [done|].
  case_decide; simplify_eq; unfold grouped_reads in *; simpl.
  - by rewrite Hv.
  - rewrite (IH Hl). by rewrite Permutation_middle.
Qed.

Lemma group_reads_append (s : strand) (rd : read) (v : umi_add) :
  group_reads (strand_append s rd v) ≡ₚ rd :: group_reads v.
Proof.
  unfold group_reads. destruct s; simpl.
  - rewrite <- app_assoc. simpl. by rewrite <- Permutation_middle.
  - rewrite app_assoc. by rewrite <- Permutation_cons_append.
Qed.

Lemma group_filed_append (s : strand) (k : string) (rd : read) (v : umi_add) :
  umi_id_of rd = Ok (s, k) → group_filed (k, v) →
  group_filed (k, strand_append s rd v).
Proof.
  intros Hid [Hf Hr]. unfold group_filed.
  destruct s; simpl in *; split; try done;
    apply Forall_app; split; try done; by constructor.
Qed.

Lemma group_read_wf (rd : read) (d d' : list (string * umi_add)) :
  group_read rd d = Ok d' → umi_dict_wf d →
  umi_dict_wf d' ∧ grouped_reads d' ≡ₚ rd :: grouped_reads d.
Proof.
  unfold group_read.
  destruct (umi_id_of rd) as [[s k]|] eqn:Hid; simpl; [|done].
  intros Hd' (Hnd & Hne & Hfiled).
  destruct (alist_lookup k d) as [v|] eqn:Hl; injection Hd' as <-.
  - split; [split_and!|].
    + by rewrite (alist_set_keys _ _ _ _ Hl).
    + apply alist_set_Forall_key; [|done]. simpl.
      intros Hnil. pose proof (group_reads_append s rd v) as Hp.
      rewrite Hnil in Hp. by apply Permutation_nil_cons in Hp.
    + apply alist_set_Forall_key; [|done].
      apply group_filed_append; [done|].
      by apply (alist_lookup_Forall group_filed k v d).
    + apply (grouped_reads_set k v); [done|apply group_reads_append].
  - apply alist_lookup_None in Hl. rewrite (alist_set_fresh _ _ _ Hl).
    split; [split_and!|].
    + rewrite fmap_app. simpl. apply NoDup_app. split_and!; [done| |].
      * intros x Hx ->%list_elem_of_singleton. done.
      * apply NoDup_singleton.
    + apply Forall_app. split; [done|]. constructor; [|done].
      by destruct s.
    + apply Forall_app. split; [done|]. constructor; [|done].
      apply group_filed_append; [done|]. by split.
    + unfold grouped_reads. rewrite flat_map_app. simpl.
      rewrite app_nil_r.
      rewrite (group_reads_append s rd), <- Permutation_middle.
      unfold group_reads. simpl. by rewrite app_nil_r.
Qed.

Lemma group_loop_wf (bam_lst : list read) (d d' : list (string * umi_add)) :
  for_each (λ rd d, commit d (group_read rd d)) bam_lst d = (d', None) →
  umi_dict_wf d →
  umi_dict_wf d' ∧ grouped_reads d' ≡ₚ grouped_reads d ++ bam_lst.
Proof.
  revert d. induction bam_lst as [|rd l IH]; intros d; simpl.
  - intros [= <-] Hwf. by rewrite app_nil_r.
  - destruct (group_read rd d) as [d1|e] eqn:E; simpl; [|done].
    intros Hl Hwf. destruct (group_read_wf _ _ _ E Hwf) as [Hwf1 Hp1].
    destruct (IH d1 Hl Hwf1) as [Hwf' Hp']. split; [done|].
    rewrite Hp', Hp1. by rewrite <- Permutation_middle.
Qed.

(** X7.  The molecules of a read list are a partition of the reads.  When
    every identifier is parsed, the keys are distinct, no molecule is
    without a read, every read lies in exactly one molecule, and it lies
    under its own key in the list of its own strand. *)
Theorem umi_groups_partition (bam_lst : list read)
    (umi_dict : list (string * umi_add)) :
  umi_groups bam_lst = (umi_dict, None) →
  NoDup umi_dict.*1
  ∧ Forall (λ kv, group_reads kv.2 ≠ []) umi_dict
  ∧ Forall group_filed umi_dict
  ∧ grouped_reads umi_dict ≡ₚ bam_lst.
Proof.
  intros Hl. apply group_loop_wf in Hl as [(H1 & H2 & H3) H4].
  - by split_and!.
  - split_and!; [apply NoDup_nil_2|done|done].
Qed.

Lemma umi_groups_partition_witness :
  let umi_dict :=
    [("AAATTT_CCCGGG"%string,
      {| Forward_Molecule_lst := [read_fwd_C];
         Reverse_Molecule_lst := [read_rev_T] |});
     ("TTTCCC_GGGAAA"%string,
      {| Forward_Molecule_lst := [];
         Reverse_Molecule_lst := [read_rev_single_C] |})] in
  NoDup umi_dict.*1
  ∧ Forall (λ kv, group_reads kv.2 ≠ []) umi_dict
  ∧ Forall group_filed umi_dict
  ∧ grouped_reads umi_dict ≡ₚ [read_fwd_C; read_rev_single_C; read_rev_T].
Proof.
  apply (umi_groups_partition [read_fwd_C; read_rev_single_C; read_rev_T]).
  vm_compute. reflexivity.
Defined.

(** ** The errors and the result of [pos_checker] *)

Lemma pos_hits_raise (inp_lst : list read) (record_pos : Z) (e : exn) :
  pos_hits inp_lst record_pos = Raise e → e = IndexError.
Proof.
  unfold pos_hits.
  assert (∀ c, foldM (pos_hits_read record_pos) inp_lst c = Raise e →
               e = IndexError) as Hloop.
  { induction inp_lst as [|rd l IH]; intros c; simpl; [done|].
    destruct (pos_hits_read record_pos rd c) as [c1|e1] eqn:E; simpl;
      [apply IH|].
    intros [= <-]. unfold pos_hits_read in E.
    destruct (index _ _); [|done].
    destruct (_ !! _); [|congruence].
    repeat case_decide; done. }
  destruct (foldM _ _ _) eqn:E; simpl; [done|].
  intros [= <-]. by eapply Hloop.
Qed.

Lemma ffpe_finder_returns (base_res : base_res_t)
    (ref_var ref_base : list ascii) (umi_key : string) :
  ∃ vd, ffpe_finder base_res ref_var ref_base umi_key = Ok vd.
Proof.
  unfold ffpe_finder.
  assert (∀ e, (ffpe_finder_try base_res ref_var ref_base umi_key
                  finder_dicts_empty).2 = Some e → e = KeyError) as He.
  { unfold ffpe_finder_try.
    destruct (getitem (Forward_Hits base_res) umi_key) as [fh|e] eqn:Ef;
      [|intros ? [= <-]; by eapply getitem_raise].
    destruct (getitem (Reverse_Hits base_res) umi_key) as [rh|e] eqn:Er;
      [|intros ? [= <-]; by eapply getitem_raise].
    apply (for_each_inv (λ _, True) (λ e, e = KeyError)); [|done].
    intros var_call d1 _.
    apply (for_each_inv (λ _, True) (λ e, e = KeyError)); [|done].
    intros r_base d2 _. unfold commit.
    destruct (ffpe_finder_step fh rh var_call r_base d2) as [d3|e] eqn:Es;
      simpl; [done|].
    split; [done|]. intros ? [= <-]. by eapply ffpe_finder_step_raise. }
  destruct (ffpe_finder_try _ _ _ _ _) as [d [e|]]; simpl in *.
  - rewrite (He e eq_refl). by eexists.
  - by eexists.
Qed.

Lemma pos_checker_key_raise (record_pos : Z) (ref_var ref_base : list ascii)
    (kv : string * umi_add) (st : loop_vars) (e : exn) :
  pos_checker_key record_pos ref_var ref_base kv st = Raise e →
  e = IndexError.
Proof.
  destruct kv as [umi_key v]. unfold pos_checker_key, pos_checker_branches.
  destruct (truthy_list (Forward_Molecule_lst v)),
    (truthy_list (Reverse_Molecule_lst v)); simpl; try done.
  - destruct (pos_hits (Forward_Molecule_lst v) record_pos) eqn:E1; simpl;
      [|intros [= <-]; by eapply pos_hits_raise].
    destruct (pos_hits (Reverse_Molecule_lst v) record_pos) eqn:E2; simpl;
      [|intros [= <-]; by eapply pos_hits_raise].
    match goal with
    | |- context [ffpe_finder ?b ?x ?y ?k] =>
        destruct (ffpe_finder_returns b x y k) as [vd ->]
    end. done.
  - destruct (pos_hits (Reverse_Molecule_lst v) record_pos) eqn:E2; simpl;
      [done|intros [= <-]; by eapply pos_hits_raise].
Qed.

Lemma group_read_parsed (rd : read) (d : list (string * umi_add)) :
  (2 ≤ List.length (barcode_fields rd))%nat →
  ∃ d', group_read rd d = Ok d'.
Proof.
  intros Hlen.
  destruct (barcode_fields rd) as [|umi_l [|umi_r brc]] eqn:Hb;
    simpl in Hlen; [lia|lia|].
  unfold group_read. rewrite (umi_id_of_fields _ _ _ _ Hb). simpl.
  destruct (alist_lookup _ d); by eexists.
Qed.

Lemma group_loop_parsed (bam_lst : list read) (d : list (string * umi_add)) :
  Forall (λ rd, (2 ≤ List.length (barcode_fields rd))%nat) bam_lst →
  ∃ d', for_each (λ rd d, commit d (group_read rd d)) bam_lst d = (d', None).
Proof.
  intros Hall. revert d.
  induction Hall as [|rd l Hrd _ IH]; intros d; simpl; [by eexists|].
  destruct (group_read_parsed rd d Hrd) as [d1 ->]. simpl. apply IH.
Qed.

Lemma filter_umi_add_truthy (d : list (string * umi_add)) :
  List.filter (λ kv, umi_add_truthy kv.2) d = d.
Proof. induction d as [|kv d IH]; simpl; [done|by rewrite IH]. Qed.

Lemma pos_hits_covered (inp_lst : list read) (record_pos : Z) :
  Forall read_covered inp_lst → ∃ t, pos_hits inp_lst record_pos = Ok t.
Proof.
  intros Hall. unfold pos_hits.
  destruct (pos_hits_loop_counts record_pos inp_lst counters_zero Hall)
    as (c & -> & _).
  { unfold counters_nonneg; simpl; lia. }
  by eexists.
Qed.

Lemma pos_checker_key_covered (record_pos : Z) (ref_var ref_base : list ascii)
    (kv : string * umi_add) (st : loop_vars) :
  Forall read_covered (group_reads kv.2) →
  kv.1 ∉ (pos_res st).*1 →
  ∃ st', pos_checker_key record_pos ref_var ref_base kv st = Ok st'
         ∧ (pos_res st').*1 = (pos_res st).*1 ++ [kv.1].
Proof.
  destruct kv as [umi_key v]. simpl.
  intros [Hf Hr]%Forall_app Hfresh.
  destruct (pos_hits_covered _ record_pos Hf) as [tf Htf].
  destruct (pos_hits_covered _ record_pos Hr) as [tr Htr].
  unfold pos_checker_key, pos_checker_branches.
  destruct (truthy_list (Forward_Molecule_lst v)),
    (truthy_list (Reverse_Molecule_lst v)); simpl;
    rewrite ?Htf, ?Htr; simpl.
  - match goal with
    | |- context [ffpe_finder ?b ?x ?y ?k] =>
        destruct (ffpe_finder_returns b x y k) as [vd ->]
    end. simpl. eexists. split; [done|]. simpl.
    by rewrite (alist_set_fresh _ _ _ Hfresh), fmap_app.
  - eexists. split; [done|]. simpl.
    by rewrite (alist_set_fresh _ _ _ Hfresh), fmap_app.
  - eexists. split; [done|]. simpl.
    by rewrite (alist_set_fresh _ _ _ Hfresh), fmap_app.
  - eexists. split; [done|]. simpl.
    by rewrite (alist_set_fresh _ _ _ Hfresh), fmap_app.
Qed.

Lemma pos_checker_loop_covered (record_pos : Z) (ref_var ref_base : list ascii)
    (d : list (string * umi_add)) (st : loop_vars) :
  Forall (λ kv, Forall read_covered (group_reads kv.2)) d →
  NoDup ((pos_res st).*1 ++ d.*1) →
  ∃ st',
    for_each
      (λ kv st, commit st (pos_checker_key record_pos ref_var ref_base kv st))
      d st = (st', None)
    ∧ (pos_res st').*1 = (pos_res st).*1 ++ d.*1.
Proof.
  intros Hall. revert st.
  induction Hall as [|kv d Hkv _ IH]; intros st Hnd; simpl.
  - eexists. split; [done|]. by rewrite app_nil_r.
  - assert (kv.1 ∉ (pos_res st).*1) as Hfresh.
    { apply NoDup_app in Hnd as (_ & Hdisj & _). intros Hin.
      apply (Hdisj _ Hin). by left. }
    destruct (pos_checker_key_covered record_pos ref_var ref_base kv st
                Hkv Hfresh) as (st1 & -> & Hk1).
    simpl. destruct (IH st1) as (st' & -> & Hk').
    { rewrite Hk1, <- app_assoc. exact Hnd. }
    eexists. split; [done|]. by rewrite Hk', Hk1, <- app_assoc.
Qed.

(** X9.  When the identifier of every read yields two barcode fields and
    the coordinate mapping of no read is longer than its sequence,
    [pos_checker] returns, with one entry per molecule, in the order in
    which the molecules first appear among the reads. *)
Theorem pos_checker_returns (bam_lst : list read) (record_pos : Z)
    (ref_var ref_base : list ascii) :
  Forall (λ rd, (2 ≤ List.length (barcode_fields rd))%nat) bam_lst →
  Forall read_covered bam_lst →
  ∃ res, pos_checker bam_lst record_pos ref_var ref_base = Ok res
         ∧ res.*1 = (umi_groups bam_lst).1.*1
         ∧ NoDup res.*1.
Proof.
  intros Hparsed Hcov. unfold pos_checker, umi_groups.
  destruct (group_loop_parsed bam_lst [] Hparsed) as [d Hd].
  rewrite Hd. simpl. rewrite filter_umi_add_truthy.
  destruct (group_loop_wf _ _ _ Hd) as [(Hnd & _ & _) Hperm].
  { split_and!; [apply NoDup_nil_2|done|done]. }
  simpl in Hperm.
  destruct (pos_checker_loop_covered record_pos ref_var ref_base d
              loop_vars_init) as (st & -> & Hkeys).
  - apply Forall_forall. intros kv Hkv. apply Forall_forall. intros rd Hrd.
    rewrite Forall_forall in Hcov. apply Hcov. rewrite <- Hperm.
    unfold grouped_reads. apply list_elem_of_In, in_flat_map.
    exists kv. split; by apply list_elem_of_In.
  - done.
  - simpl in Hkeys. exists (pos_res st). by rewrite Hkeys.
Qed.

Lemma pos_checker_returns_witness :
  ∃ res,
    pos_checker [read_rev_single_C; read_fwd_C; read_rev_T] 99 ["C"] ["T"]
    = Ok res
    ∧ res.*1 = (umi_groups [read_rev_single_C; read_fwd_C; read_rev_T]).1.*1
    ∧ NoDup res.*1.
Proof.
  apply (pos_checker_returns
           [read_rev_single_C; read_fwd_C; read_rev_T] 99 ["C"] ["T"]).
  - repeat constructor; vm_compute; lia.
  - repeat constructor; unfold read_covered; simpl; lia.
Defined.

(** ** [sup_count] *)

Lemma iadd_bump {K : Type} `{Countable K} (m : gmap K Z) (a : K) (x v : Z) :
  iadd (<[a := x]> m) a v = Ok (<[a := x + v]> m).
Proof.
  unfold iadd, getitem. rewrite lookup_insert_eq. simpl.
  by rewrite insert_insert_eq.
Qed.

Lemma step_like_ret (a : ascii) : step_like a Ok.
Proof.
  exists (Ok (0, 0, 0)). split; [done|]. intros s x y z. simpl.
  by rewrite !Z.add_0_r.
Qed.

Lemma step_like_raise (a : ascii) : step_like a (λ _, Raise KeyError).
Proof. exists (Raise KeyError). split; [by intros ? [= <-]|done]. Qed.

Lemma step_like_bind (a : ascii) (f g : sup → result sup) :
  step_like a f → step_like a g → step_like a (λ s, f s ≫= g).
Proof.
  intros (r1 & He1 & Hf) (r2 & He2 & Hg).
  destruct r1 as [[[dx1 dy1] dz1]|e1].
  - destruct r2 as [[[dx2 dy2] dz2]|e2].
    + exists (Ok (dx1 + dx2, dy1 + dy2, dz1 + dz2)). split; [done|].
      intros s x y z. rewrite Hf. simpl. rewrite Hg. simpl.
      by rewrite !Z.add_assoc.
    + exists (Raise e2). split; [done|].
      intros s x y z. rewrite Hf. simpl. by rewrite Hg.
  - exists (Raise e1). split; [done|]. intros s x y z. by rewrite Hf.
Qed.

Lemma step_like_if (a : ascii) (b : bool) (f g : sup → result sup) :
  step_like a f → step_like a g → step_like a (λ s, if b then f s else g s).
Proof. by destruct b. Qed.

Lemma step_like_forward_single (single : gmap ascii Z) (a : ascii) :
  step_like a (add_forward_single single a).
Proof.
  unfold add_forward_single. case_bool_decide as Hdom.
  - apply elem_of_dom in Hdom as [v Hv].
    exists (Ok (v, 0, 0)). split; [done|]. intros s x y z.
    rewrite (getitem_Some _ _ _ Hv). simpl. rewrite iadd_bump. simpl.
    unfold bump. simpl. by rewrite !Z.add_0_r.
  - apply step_like_ret.
Qed.

Lemma step_like_reverse_single (single : gmap ascii Z) (a : ascii) :
  step_like a (add_reverse_single single a).
Proof.
  unfold add_reverse_single. case_bool_decide as Hdom.
  - apply elem_of_dom in Hdom as [v Hv].
    exists (Ok (0, v, 0)). split; [done|]. intros s x y z.
    rewrite (getitem_Some _ _ _ Hv). simpl. rewrite iadd_bump. simpl.
    unfold bump. simpl. by rewrite !Z.add_0_r.
  - apply step_like_ret.
Qed.

Lemma step_like_paired (hits : gmap ascii hit) (a : ascii) :
  step_like a (add_paired hits a).
Proof.
  unfold add_paired. destruct (truthy hits); [|apply step_like_ret].
  destruct (hits !! a) as [h|]; [|apply step_like_ret].
  destruct (getitem (Forward_Molecule_hits h) a) as [fv|e1] eqn:E1.
  - destruct (getitem (Reverse_Molecule_hits h) a) as [rv|e2] eqn:E2.
    + exists (Ok (0, 0, fv + rv)). split; [done|]. intros s x y z. simpl.
      rewrite iadd_bump. simpl. rewrite iadd_bump. simpl.
      unfold bump. simpl. by rewrite !Z.add_0_r, Z.add_assoc.
    + exists (Raise e2). split; [intros ? [= <-]; by eapply getitem_raise|].
      intros s x y z. simpl. rewrite iadd_bump. done.
  - exists (Raise e1). split; [intros ? [= <-]; by eapply getitem_raise|].
    done.
Qed.

Lemma step_like_mutation_ref (hits : gmap ascii hit) (a : ascii) :
  step_like a (add_paired_mutation_ref hits a).
Proof.
  unfold add_paired_mutation_ref.
  destruct (truthy hits); [|apply step_like_ret].
  destruct (hits !! a) as [h|]; [|apply step_like_ret].
  destruct (truthy (Forward_Molecule_hits h)).
  - exists (Raise KeyError). split; [by intros ? [= <-]|].
    intros s x y z. unfold getitem, bump. simpl.
    by rewrite lookup_insert_eq.
  - destruct (truthy (Reverse_Molecule_hits h)).
    + exists (Raise KeyError). split; [by intros ? [= <-]|].
      intros s x y z. unfold getitem, bump. simpl.
      by rewrite lookup_insert_eq.
    + apply step_like_ret.
Qed.

Lemma step_like_alt_key (alt : ascii) (kv : string * entry) :
  step_like alt (sup_count_alt_key alt kv).
Proof.
  unfold sup_count_alt_key. cbv zeta.
  apply step_like_bind;
    [apply step_like_if;
       [apply step_like_forward_single|apply step_like_ret]|].
  apply step_like_bind;
    [apply step_like_if;
       [apply step_like_reverse_single|apply step_like_ret]|].
  destruct (Variant_Hits kv.2) as [vh|]; [|apply step_like_ret].
  repeat (apply step_like_bind; [apply step_like_paired|]).
  apply step_like_paired.
Qed.

Lemma step_like_ref_key (ref : ascii) (kv : string * entry) :
  step_like ref (sup_count_ref_key ref kv).
Proof.
  unfold sup_count_ref_key. cbv zeta.
  apply step_like_if; [apply step_like_forward_single|].
  apply step_like_if; [apply step_like_reverse_single|].
  destruct (Variant_Hits kv.2) as [vh|]; [|apply step_like_ret].
  apply step_like_bind; [apply step_like_paired|].
  apply step_like_bind; [apply step_like_mutation_ref|].
  apply step_like_if; [apply step_like_paired|].
  apply step_like_if; [apply step_like_paired|apply step_like_ret].
Qed.

Lemma foldM_step_like_perm {X : Type} (a : ascii) (body : X → sup → result sup)
    (l1 l2 : list X) :
  (∀ x, step_like a (body x)) →
  l1 ≡ₚ l2 →
  ∀ s x y z, foldM body l1 (bump a x y z s) = foldM body l2 (bump a x y z s).
Proof.
  intros Hbody. induction 1 as [|k l1 l2 _ IH|k1 k2 l|l1 l2 l3 _ IH1 _ IH2];
    intros s x y z; simpl.
  - done.
  - destruct (Hbody k) as ([[[dx dy] dz]|e] & _ & ->); simpl; [apply IH|done].
  - destruct (Hbody k1) as ([[[dx1 dy1] dz1]|e1] & He1 & H1),
      (Hbody k2) as ([[[dx2 dy2] dz2]|e2] & He2 & H2);
      rewrite ?H1, ?H2; simpl; rewrite ?H1, ?H2; simpl.
    + by rewrite <- !Z.add_assoc, (Z.add_comm dx1), (Z.add_comm dy1),
        (Z.add_comm dz1).
    + done.
    + done.
    + by rewrite (He1 e1), (He2 e2).
  - by rewrite IH1, IH2.
Qed.

Lemma foldM_ext {S X : Type} (f g : X → S → result S) (xs : list X) (s : S) :
  (∀ x s, f x s = g x s) → foldM f xs s = foldM g xs s.
Proof.
  intros Hfg. revert s. induction xs as [|x xs IH]; intros s; simpl; [done|].
  rewrite Hfg. destruct (g x s); simpl; [apply IH|done].
Qed.

(** X10.  The support counts do not depend on the order of the entries of
    the dictionary that [sup_count] is given: for two orders of the same
    entries it returns the same counts, or raises in both. *)
Theorem sup_count_permutation (d1 d2 : list (string * entry))
    (n_ref n_alt : list ascii) :
  d1 ≡ₚ d2 → sup_count d1 n_ref n_alt = sup_count d2 n_ref n_alt.
Proof.
  intros Hperm. unfold sup_count.
  rewrite (foldM_ext (sup_count_alt d1) (sup_count_alt d2)).
  2:{ intros alt s. unfold sup_count_alt.
      apply (foldM_step_like_perm alt _ d1 d2 (step_like_alt_key alt) Hperm
               s 0 0 0). }
  rewrite (foldM_ext (sup_count_ref d1) (sup_count_ref d2)); [done|].
  intros ref s. unfold sup_count_ref.
  apply (foldM_step_like_perm ref _ d1 d2 (step_like_ref_key ref) Hperm
           s 0 0 0).
Qed.

Lemma sup_count_permutation_witness :
  let e1 := ("K1"%string,
             {| Forward_Single := ∅; Reverse_Single := tally_C;
                Variant_Hits := None |}) in
  let e2 := ("K2"%string,
             {| Forward_Single := ∅; Reverse_Single := ∅;
                Variant_Hits :=
                  Some {| FFPE_Hits :=
                            {["C" := {| Forward_Molecule_hits := tally_C;
                                        Reverse_Molecule_hits := tally_T |}]};
                          Mutation_Hits := ∅; Reference_Hits := ∅;
                          Other_Mutation_Hits := ∅ |} |}) in
  sup_count [e1; e2] ["T"] ["C"] = sup_count [e2; e1] ["T"] ["C"].
Proof.
  intros e1 e2.
  apply (sup_count_permutation [e1; e2] [e2; e1] ["T"] ["C"]).
  apply perm_swap.
Defined.

Lemma foldM_step_like_raise {X : Type} (a : ascii)
    (body : X → sup → result sup) (l : list X) :
  (∀ x, step_like a (body x)) →
  ∀ s x y z e, foldM body l (bump a x y z s) = Raise e → e = KeyError.
Proof.
  intros Hbody. induction l as [|k l IH]; intros s x y z e; simpl; [done|].
  destruct (Hbody k) as ([[[dx dy] dz]|e1] & He1 & ->); simpl; [apply IH|].
  intros [= <-]. by apply He1.
Qed.

Lemma foldM_raise_inv {S X : Type} (P : exn → Prop)
    (body : X → S → result S) (xs : list X) (s : S) (e : exn) :
  (∀ x s0 e0, body x s0 = Raise e0 → P e0) →
  foldM body xs s = Raise e → P e.
Proof.
  intros Hbody. revert s. induction xs as [|x xs IH]; intros s; simpl; [done|].
  destruct (body x s) as [s'|e'] eqn:E; simpl; [apply IH|].
  intros [= <-]. by eapply Hbody.
Qed.

Lemma sup_count_raise_KeyError (input_dict : list (string * entry))
    (n_ref n_alt : list ascii) (e : exn) :
  sup_count input_dict n_ref n_alt = Raise e → e = KeyError.
Proof.
  unfold sup_count.
  destruct (foldM (sup_count_alt input_dict) n_alt sup_empty) eqn:E1; simpl.
  - destruct (foldM (sup_count_ref input_dict) n_ref sup_empty) eqn:E2;
      simpl; [done|].
    intros [= <-]. eapply (foldM_raise_inv (λ e, e = KeyError)); [|exact E2].
    intros ref s0 e'. unfold sup_count_ref.
    apply (foldM_step_like_raise ref _ _ (step_like_ref_key ref) s0 0 0 0).
  - intros [= <-]. eapply (foldM_raise_inv (λ e, e = KeyError)); [|exact E1].
    intros alt s0 e'. unfold sup_count_alt.
    apply (foldM_step_like_raise alt _ _ (step_like_alt_key alt) s0 0 0 0).
Qed.

Lemma foldM_step_like_Ok {X : Type} (a : ascii) (body : X → sup → result sup)
    (l : list X) :
  (∀ k, step_like a (body k)) →
  ∀ s x y z s', foldM body l (bump a x y z s) = Ok s' →
  (∃ x' y' z', s' = bump a x' y' z' s)
  ∧ ∀ k, k ∈ l → ∀ s0 x0 y0 z0, body k (bump a x0 y0 z0 s0) ≠ Raise KeyError.
Proof.
  intros Hbody. induction l as [|k l IH]; intros s x y z s'; simpl.
  - intros [= <-]. split; [by eauto|]. intros k Hk. by apply elem_of_nil in Hk.
  - destruct (Hbody k) as ([[[dx dy] dz]|e1] & He1 & Hk); rewrite Hk; simpl;
      [|done].
    intros Hl. apply IH in Hl as [Hs' Hl]. split; [done|].
    intros k' [->|Hk']%elem_of_cons; [|by apply Hl].
    intros s0 x0 y0 z0. by rewrite Hk.
Qed.

(** X11.  The only exception [sup_count] raises is [KeyError]. *)
Theorem sup_count_raise (input_dict : list (string * entry))
    (n_ref n_alt : list ascii) (e : exn) :
  sup_count input_dict n_ref n_alt = Raise e → e = KeyError.
Proof. apply sup_count_raise_KeyError. Qed.

(** X12.  A reference base that is also the key of a Mutation hit stops
    [sup_count].  When some molecule without single-strand tallies holds
    a Mutation hit under a reference base, with a non-empty tally on
    either strand, [sup_count] raises [KeyError]: the sums of the
    ["Mutation Hits"] block of the reference loop index the category by
    ["Forward Molecule"] instead of by the base. *)
Theorem sup_count_mutation_ref_raises (input_dict : list (string * entry))
    (n_ref n_alt : list ascii) (umi_key : string) (e : entry)
    (vh : variant_hits) (ref : ascii) (h : hit) :
  (umi_key, e) ∈ input_dict →
  Forward_Single e = ∅ → Reverse_Single e = ∅ →
  Variant_Hits e = Some vh →
  Mutation_Hits vh !! ref = Some h →
  Forward_Molecule_hits h ≠ ∅ ∨ Reverse_Molecule_hits h ≠ ∅ →
  ref ∈ n_ref →
  sup_count input_dict n_ref n_alt = Raise KeyError.
Proof.
  intros Hin Hfs Hrs Hvh Hmut Htally Href.
  destruct (sup_count input_dict n_ref n_alt) as [ps|e'] eqn:E;
    [|by rewrite (sup_count_raise_KeyError _ _ _ _ E)].
  exfalso. unfold sup_count in E.
  destruct (foldM (sup_count_alt input_dict) n_alt sup_empty); simpl in E;
    [|done].
  destruct (foldM (sup_count_ref input_dict) n_ref sup_empty) as [rs|] eqn:E2;
    simpl in E; [|done]. clear E.
  assert (∀ s0, sup_count_ref input_dict ref s0 ≠ Ok rs ∧
                ∀ s1, sup_count_ref input_dict ref s0 ≠ Ok s1) as Hbad.
  { intros s0. assert (∀ s1, sup_count_ref input_dict ref s0 ≠ Ok s1) as Hno;
      [|by split].
    intros s1 Hok. unfold sup_count_ref in Hok.
    change (sup_init ref s0) with (bump ref 0 0 0 s0) in Hok.
    apply (foldM_step_like_Ok ref _ _ (step_like_ref_key ref)) in Hok
      as [_ Hok].
    apply (Hok _ Hin s0 0 0 0).
    unfold sup_count_ref_key. simpl. rewrite Hfs, Hrs, Hvh.
    rewrite !truthy_empty.
    destruct (step_like_paired (FFPE_Hits vh) ref) as (r & Her & Hr).
    rewrite Hr. destruct r as [[[dx dy] dz]|er]; simpl;
      [|by rewrite (Her er)].
    unfold add_paired_mutation_ref. rewrite Hmut.
    assert (truthy (Mutation_Hits vh) = true) as ->.
    { apply bool_decide_eq_true_2. intros Hemp. by rewrite Hemp in Hmut. }
    unfold getitem, bump. simpl. rewrite lookup_insert_eq. simpl.
    destruct Htally as [Hf|Hr'].
    - by rewrite (bool_decide_eq_true_2 _ Hf : truthy _ = true).
    - destruct (truthy (Forward_Molecule_hits h)); simpl; [done|].
      rewrite lookup_insert_eq. simpl.
      by rewrite (bool_decide_eq_true_2 _ Hr' : truthy _ = true). }
  clear -Href E2 Hbad. revert E2. generalize sup_empty.
  induction n_ref as [|r l IH]; intros s0; [by apply elem_of_nil in Href|].
  simpl. apply elem_of_cons in Href as [<-|Href].
  - destruct (sup_count_ref input_dict ref s0) eqn:E; simpl; [|done].
    destruct (Hbad s0) as [_ Hno']. by destruct (Hno' _ E).
  - destruct (sup_count_ref input_dict r s0); simpl; [by apply IH|done].
Qed.

Lemma sup_count_mutation_ref_raises_witness :
  sup_count
    [("AAATTT_CCCGGG"%string,
      {| Forward_Single := ∅; Reverse_Single := ∅;
         Variant_Hits :=
           Some {| FFPE_Hits := ∅;
                   Mutation_Hits :=
                     {["C" := {| Forward_Molecule_hits := tally_C;
                                 Reverse_Molecule_hits := tally_C |}]};
                   Reference_Hits := ∅; Other_Mutation_Hits := ∅ |} |})]
    ["C"] ["C"] = Raise KeyError.
Proof.
  eapply (sup_count_mutation_ref_raises _ ["C"] ["C"] "AAATTT_CCCGGG" _ _ "C").
  - apply list_elem_of_singleton. reflexivity.
  - reflexivity.
  - reflexivity.
  - reflexivity.
  - reflexivity.
  - left. apply (bool_decide_unpack _). vm_compute. exact I.
  - apply list_elem_of_singleton. reflexivity.
Defined.

Lemma sup_count_raise_witness :
  sup_count
    [("K"%string,
      {| Forward_Single := ∅; Reverse_Single := ∅;
         Variant_Hits :=
           Some {| FFPE_Hits :=
                     {["C" := {| Forward_Molecule_hits := ∅;
                                 Reverse_Molecule_hits := ∅ |}]};
                   Mutation_Hits := ∅;
                   Reference_Hits := ∅; Other_Mutation_Hits := ∅ |} |})]
    ["T"] ["C"] = Raise KeyError
  ∧ KeyError = KeyError.
Proof.
  match goal with
  | |- ?A ∧ _ => assert A as H by (vm_compute; reflexivity)
  end.
  split; [exact H|]. apply (sup_count_raise _ _ _ _ H).
Defined.

Lemma sup_keys_bump (a : ascii) (x y z : Z) (s : sup) (K : gset ascii) :
  sup_keys s K → sup_keys (bump a x y z s) ({[a]} ∪ K).
Proof.
  intros (H1 & H2 & H3). unfold sup_keys, bump. simpl.
  by rewrite !dom_insert_L, H1, H2, H3.
Qed.

Lemma sup_count_loop_keys {X : Type} (a : ascii)
    (body : X → sup → result sup) (l : list X) (s s' : sup) (K : gset ascii) :
  (∀ k, step_like a (body k)) →
  foldM body l (sup_init a s) = Ok s' →
  sup_keys s K → sup_keys s' ({[a]} ∪ K).
Proof.
  intros Hbody Hl HK.
  change (sup_init a s) with (bump a 0 0 0 s) in Hl.
  apply (foldM_step_like_Ok a _ _ Hbody) in Hl as [(x & y & z & ->) _].
  by apply sup_keys_bump.
Qed.

Lemma sup_count_alleles_keys (f : ascii → sup → result sup) (l : list ascii)
    (s s' : sup) (K : gset ascii) :
  (∀ a s0 s1 K0, f a s0 = Ok s1 → sup_keys s0 K0 → sup_keys s1 ({[a]} ∪ K0)) →
  foldM f l s = Ok s' → sup_keys s K → sup_keys s' (list_to_set l ∪ K).
Proof.
  intros Hf. revert s K. induction l as [|a l IH]; intros s K; simpl.
  - intros [= <-] HK. by rewrite (left_id_L ∅ (∪)).
  - destruct (f a s) as [s1|] eqn:E; simpl; [|done].
    intros Hl HK. apply (IH s1 ({[a]} ∪ K)) in Hl; [|by eapply Hf].
    replace ({[a]} ∪ list_to_set l ∪ K) with (list_to_set l ∪ ({[a]} ∪ K));
      [done|set_solver].
Qed.

(** X13.  When [sup_count] returns, each of the three counters (Paired,
    Forward Single, Reverse Single) of the variant record holds exactly
    the alternate alleles it was given, and each counter of the
    reference record exactly the reference bases: a counter is there for
    every queried allele, also for one no molecule supports. *)
Theorem sup_count_keys (input_dict : list (string * entry))
    (n_ref n_alt : list ascii) (pos_sup : pos_sup_t) :
  sup_count input_dict n_ref n_alt = Ok pos_sup →
  sup_keys (Variant pos_sup) (list_to_set n_alt)
  ∧ sup_keys (Reference pos_sup) (list_to_set n_ref).
Proof.
  unfold sup_count.
  destruct (foldM (sup_count_alt input_dict) n_alt sup_empty) as [alt_sup|]
    eqn:E1; simpl; [|done].
  destruct (foldM (sup_count_ref input_dict) n_ref sup_empty) as [ref_sup|]
    eqn:E2; simpl; [|done].
  intros [= <-]. simpl.
  assert (sup_keys sup_empty ∅) as H0.
  { unfold sup_keys, sup_empty. simpl. by rewrite dom_empty_L. }
  split.
  - rewrite <- (right_id_L ∅ (∪) (list_to_set n_alt)).
    eapply sup_count_alleles_keys; [|exact E1|exact H0].
    intros a s0 s1 K0. unfold sup_count_alt.
    apply sup_count_loop_keys, step_like_alt_key.
  - rewrite <- (right_id_L ∅ (∪) (list_to_set n_ref)).
    eapply sup_count_alleles_keys; [|exact E2|exact H0].
    intros a s0 s1 K0. unfold sup_count_ref.
    apply sup_count_loop_keys, step_like_ref_key.
Qed.

Lemma sup_count_keys_witness :
  ∃ pos_sup,
    sup_count [("K1"%string,
                {| Forward_Single := ∅; Reverse_Single := tally_C;
                   Variant_Hits := None |})] ["T"] ["C"; "G"] = Ok pos_sup
    ∧ sup_keys (Variant pos_sup) (list_to_set ["C"; "G"])
    ∧ sup_keys (Reference pos_sup) (list_to_set ["T"]).
Proof.
  destruct (sup_count [("K1"%string,
                {| Forward_Single := ∅; Reverse_Single := tally_C;
                   Variant_Hits := None |})] ["T"] ["C"; "G"])
    as [pos_sup|] eqn:E; [|vm_compute in E; discriminate].
  exists pos_sup. split; [reflexivity|].
  apply (sup_count_keys _ _ _ _ E).
Defined.

(** ** [vcf_extract] *)

(** X14.  A record without alternate allele stops the run with a
    [TypeError]: what was written for the records before it stays, and
    no record after it is processed. *)
Theorem vcf_extract_no_alts (bam_file : string → Z → Z → list read)
    (before after : list vcf_record) (record : vcf_record) (w : io) :
  alts record = None →
  vcf_extract bam_file before = (w, None) →
  vcf_extract bam_file (before ++ record :: after) = (w, Some TypeError).
Proof.
  intros Halts Hbefore. unfold vcf_extract in *.
  rewrite for_each_app, Hbefore. simpl.
  unfold vcf_extract_record. by rewrite Halts.
Qed.

Lemma vcf_extract_no_alts_witness :
  vcf_extract (bam_of [read_fwd_C; read_rev_T])
    ([record_AT_A]
     ++ {| chrom := "chr8"; pos := 100; ref := "T"; alts := None;
           samples := []; filter := [] |} :: [record_T_C "chr8"])
  = (io_empty, Some TypeError).
Proof.
  apply (vcf_extract_no_alts (bam_of [read_fwd_C; read_rev_T]) [record_AT_A]
           [record_T_C "chr8"]).
  - reflexivity.
  - vm_compute. reflexivity.
Defined.

Lemma samples_loop_names (v : result pyval) (l : list (string * option pyval))
    (acc acc' : list (string * option pyval)) :
  foldM (λ sample acc0, umi ← v; Ok (acc0 ++ [(sample.1, Some umi)])) l acc
  = Ok acc' →
  acc'.*1 = acc.*1 ++ l.*1.
Proof.
  revert acc. induction l as [|sample l IH]; intros acc; simpl.
  - intros [= <-]. by rewrite app_nil_r.
  - destruct v as [umi|]; simpl; [|done].
    intros Hl. apply IH in Hl. rewrite Hl, fmap_app. simpl.
    by rewrite <- app_assoc.
Qed.

Lemma annotate_annotated_from (record n : vcf_record) (record_pos : Z)
    (n_ref n_alt : gset ascii) (bam_lst : list read) :
  annotate record record_pos n_ref n_alt bam_lst = Ok n →
  annotated_from record n.
Proof.
  unfold annotate.
  destruct (pos_checker _ _ _ _) as [ffpe_data|]; simpl; [|done].
  destruct (sup_count _ _ _) as [pos_sup|]; simpl; [|done].
  destruct (foldM _ (elements n_alt) _) as [var_sd|]; simpl; [|done].
  destruct (foldM _ (elements n_ref) _) as [ref_sd|]; simpl; [|done].
  destruct (foldM _ (samples record) _) as [samples'|] eqn:Es; simpl; [|done].
  intros [= <-]. unfold annotated_from, record_key. simpl.
  split_and!; [done|by apply samples_loop_names in Es|].
  destruct (existsb has_ffpe ffpe_data); [|done].
  intros f Hf Hpass. unfold filter_add.
  case_bool_decide as H1; [done|].
  case_bool_decide as H2; [discriminate H2|].
  case_bool_decide as H3.
  - rewrite H3 in Hf. by apply list_elem_of_singleton in Hf.
  - apply elem_of_app. by left.
Qed.

Lemma vcf_extract_record_effect (bam_file : string → Z → Z → list read)
    (record : vcf_record) (w w' : io) (e : option exn) :
  vcf_extract_record bam_file record w = (w', e) →
  (fetched w' = fetched w ∧ output_vcf w' = output_vcf w)
  ∨ (fetched w' = fetched w ++ [record_query record]
     ∧ (output_vcf w' = output_vcf w
        ∨ ∃ n, output_vcf w' = output_vcf w ++ [n] ∧ annotated_from record n)).
Proof.
  unfold vcf_extract_record.
  destruct (alts record) as [n_alt|]; [|intros [= <- <-]; by left].
  case_bool_decide; [intros [= <- <-]; by left|].
  unfold bam_fetch.
  destruct (annotate record _ _ _ _) as [n|e1] eqn:E; simpl;
    intros [= <- <-]; right; simpl; (split; [done|]).
  - right. exists n. split; [done|]. by eapply annotate_annotated_from.
  - by left.
Qed.

Lemma vcf_extract_loop_effect (bam_file : string → Z → Z → list read)
    (vcf_file : list vcf_record) (w w' : io) (e : option exn) :
  for_each (vcf_extract_record bam_file) vcf_file w = (w', e) →
  ∃ fetched_for written_for written,
    fetched w' = fetched w ++ (record_query <$> fetched_for)
    ∧ output_vcf w' = output_vcf w ++ written
    ∧ Forall2 annotated_from written_for written
    ∧ written_for `sublist_of` fetched_for
    ∧ fetched_for `sublist_of` vcf_file.
Proof.
  revert w. induction vcf_file as [|record l IH]; intros w; simpl.
  - intros [= <- <-]. exists [], [], []. simpl. rewrite !app_nil_r.
    by split_and!.
  - destruct (vcf_extract_record bam_file record w) as [w1 e1] eqn:E.
    apply vcf_extract_record_effect in E.
    assert (∃ fs ws wr,
              fetched w1 = fetched w ++ (record_query <$> fs)
              ∧ output_vcf w1 = output_vcf w ++ wr
              ∧ Forall2 annotated_from ws wr
              ∧ ws `sublist_of` fs ∧ fs `sublist_of` [record])
      as (fs & ws & wr & Hf1 & Ho1 & Han1 & Hs1 & Hs2).
    { destruct E as [[Hf Ho]|[Hf [Ho|(n & Ho & Hn)]]].
      - exists [], [], []. simpl. rewrite !app_nil_r.
        split_and!; [done|done|done|done|apply sublist_nil_l].
      - exists [record], [], []. simpl. rewrite app_nil_r.
        split_and!; [done|done|done|apply sublist_nil_l|done].
      - exists [record], [record], [n].
        split_and!; [done|done|by apply Forall2_cons|done|done]. }
    destruct e1 as [e1|].
    + intros [= <- <-]. exists fs, ws, wr.
      split_and!; [done|done|done|done|].
      etrans; [exact Hs2|]. apply sublist_skip, sublist_nil_l.
    + intros Hl. apply IH in Hl
        as (fs' & ws' & wr' & Hf2 & Ho2 & Han2 & Hs1' & Hs2').
      exists (fs ++ fs'), (ws ++ ws'), (wr ++ wr').
      split_and!.
      * by rewrite Hf2, Hf1, fmap_app, app_assoc.
      * by rewrite Ho2, Ho1, app_assoc.
      * by apply Forall2_app.
      * by apply sublist_app.
      * change (record :: l) with ([record] ++ l). by apply sublist_app.
Qed.

(** X15.  The effect of a whole run.  The fetches are the queries
    [("chr8", pos - 1, pos)] of a subsequence of the records, in the
    order of the file; the written records are copies of a subsequence
    of the records fetched for, in the same order, each with the
    chromosome, position and alleles of its record, the same samples and
    the filters of its record other than ["PASS"].  Nothing is written
    that is not in the input, and nothing is written without a fetch. *)
Theorem vcf_extract_effect (bam_file : string → Z → Z → list read)
    (vcf_file : list vcf_record) :
  ∃ fetched_for written_for,
    fetched (vcf_extract bam_file vcf_file).1 = record_query <$> fetched_for
    ∧ Forall2 annotated_from written_for
        (output_vcf (vcf_extract bam_file vcf_file).1)
    ∧ written_for `sublist_of` fetched_for
    ∧ fetched_for `sublist_of` vcf_file.
Proof.
  unfold vcf_extract.
  destruct (for_each _ vcf_file io_empty) as [w e] eqn:E.
  apply vcf_extract_loop_effect in E
    as (fs & ws & wr & Hf & Ho & Han & Hs1 & Hs2).
  simpl in *. exists fs, ws. rewrite Hf, Ho. by split_and!.
Qed.

(** ** Order of the reads in a tally *)

Lemma pos_hits_loop_perm (record_pos : Z) (l1 l2 : list read) :
  l1 ≡ₚ l2 →
  ∀ c, foldM (pos_hits_read record_pos) l1 c
       = foldM (pos_hits_read record_pos) l2 c.
Proof.
  assert (∀ rd c e, pos_hits_read record_pos rd c = Raise e → e = IndexError)
    as Hraise.
  { intros rd c e. unfold pos_hits_read.
    destruct (index _ _); [|done]. destruct (_ !! _); [|congruence].
    repeat case_decide; done. }
  induction 1 as [|rd l1 l2 _ IH|rd1 rd2 l|l1 l2 l3 _ IH1 _ IH2];
    intros c; simpl.
  - done.
  - destruct (pos_hits_read record_pos rd c); simpl; [apply IH|done].
  - rewrite (pos_hits_read_shift record_pos rd1 c),
      (pos_hits_read_shift record_pos rd2 c).
    destruct (pos_hits_read record_pos rd1 counters_zero) as [d1|e1] eqn:E1,
      (pos_hits_read record_pos rd2 counters_zero) as [d2|e2] eqn:E2; simpl.
    + rewrite (pos_hits_read_shift record_pos rd1 (counters_add c d2)),
        (pos_hits_read_shift record_pos rd2 (counters_add c d1)), E1, E2.
      simpl. f_equal. unfold counters_add. simpl. f_equal; lia.
    + rewrite (pos_hits_read_shift record_pos rd2 (counters_add c d1)), E2.
      done.
    + rewrite (pos_hits_read_shift record_pos rd1 (counters_add c d2)), E1.
      done.
    + by rewrite (Hraise _ _ _ E1), (Hraise _ _ _ E2).
  - by rewrite IH1, IH2.
Qed.

(** X16.  The tally of a read list does not depend on the order of the
    reads. *)
Theorem pos_hits_permutation (l1 l2 : list read) (record_pos : Z) :
  l1 ≡ₚ l2 → pos_hits l1 record_pos = pos_hits l2 record_pos.
Proof.
  intros Hperm. unfold pos_hits.
  by rewrite (pos_hits_loop_perm record_pos l1 l2 Hperm).
Qed.

Lemma pos_hits_permutation_witness :
  pos_hits [read_fwd_C; read_rev_T; read_fwd_A] 99
  = pos_hits [read_rev_T; read_fwd_C; read_fwd_A] 99.
Proof.
  apply (pos_hits_permutation [read_fwd_C; read_rev_T; read_fwd_A]
           [read_rev_T; read_fwd_C; read_fwd_A] 99).
  apply perm_swap.
Defined.

(** ** What a result of [pos_checker] holds *)

Lemma pos_checker_loop_keys (record_pos : Z) (ref_var ref_base : list ascii)
    (d : list (string * umi_add)) (st st' : loop_vars) :
  NoDup ((pos_res st).*1 ++ d.*1) →
  for_each
    (λ kv st, commit st (pos_checker_key record_pos ref_var ref_base kv st))
    d st = (st', None) →
  (pos_res st').*1 = (pos_res st).*1 ++ d.*1.
Proof.
  revert st. induction d as [|[umi_key v] d IH]; intros st Hnd; simpl.
  - intros [= <-]. by rewrite app_nil_r.
  - unfold pos_checker_key at 1.
    destruct (pos_checker_branches _ _ _ umi_key v st) as [st1|e] eqn:E;
      simpl; [|done].
    apply pos_checker_branches_f_s_hits in E as [_ Hres].
    assert (umi_key ∉ (pos_res st).*1) as Hfresh.
    { apply NoDup_app in Hnd as (_ & Hdisj & _). intros Hin.
      apply (Hdisj _ Hin). by left. }
    intros Hl. apply IH in Hl; simpl in *.
    + rewrite Hl, Hres, (alist_set_fresh _ _ _ Hfresh), fmap_app.
      by rewrite <- app_assoc.
    + rewrite Hres, (alist_set_fresh _ _ _ Hfresh), fmap_app, <- app_assoc.
      exact Hnd.
Qed.

(** X8.  A result of [pos_checker] is never cut short.  Whenever
    [pos_checker] returns, the first loop has gone through all the reads
    without exception, and the result holds one entry for each molecule,
    in the order in which the molecules first appear, without
    duplicates: the handler for [KeyError] never returns a part of the
    result. *)
Theorem pos_checker_result_complete (bam_lst : list read) (record_pos : Z)
    (ref_var ref_base : list ascii) (res : list (string * entry)) :
  pos_checker bam_lst record_pos ref_var ref_base = Ok res →
  (umi_groups bam_lst).2 = None
  ∧ res.*1 = (umi_groups bam_lst).1.*1
  ∧ NoDup res.*1.
Proof.
  unfold pos_checker, umi_groups.
  match goal with
  | |- context [for_each ?body bam_lst ?s] =>
      destruct (for_each_inv (λ _, True) (λ e, e = IndexError) body bam_lst s)
        as [_ H1]
  end; [|done|].
  { intros rd d _. split; [done|]. unfold commit.
    destruct (group_read rd d) eqn:E; simpl; [done|].
    intros ? [= <-]. by eapply group_read_raise. }
  destruct (for_each _ bam_lst []) as [d [e1|]] eqn:Hd; simpl in *.
  { by rewrite (H1 e1 eq_refl). }
  destruct (group_loop_wf _ _ _ Hd) as [(Hnd & _ & _) _].
  { split_and!; [apply NoDup_nil_2|done|done]. }
  rewrite filter_umi_add_truthy.
  match goal with
  | |- context [for_each ?body d ?s] =>
      destruct (for_each_inv (λ _, True) (λ e, e = IndexError) body d s)
        as [_ H2]
  end; [|done|].
  { intros kv st _. split; [done|]. unfold commit.
    destruct (pos_checker_key _ _ _ kv st) eqn:E; simpl; [done|].
    intros ? [= <-]. by eapply pos_checker_key_raise. }
  destruct (for_each _ d loop_vars_init) as [st [e2|]] eqn:Hst; simpl in *.
  { by rewrite (H2 e2 eq_refl). }
  intros [= <-].
  apply pos_checker_loop_keys in Hst; [|done]. simpl in Hst.
  by rewrite Hst.
Qed.

Lemma pos_checker_result_complete_witness :
  (umi_groups [read_rev_single_C; read_fwd_C; read_rev_T]).2 = None
  ∧ ["TTTCCC_GGGAAA"%string; "AAATTT_CCCGGG"%string]
    = (umi_groups [read_rev_single_C; read_fwd_C; read_rev_T]).1.*1
  ∧ NoDup ["TTTCCC_GGGAAA"%string; "AAATTT_CCCGGG"%string].
Proof.
  destruct (pos_checker [read_rev_single_C; read_fwd_C; read_rev_T] 99
              ["C"] ["T"]) as [res|] eqn:E; [|vm_compute in E; discriminate].
  assert (res.*1 = ["TTTCCC_GGGAAA"%string; "AAATTT_CCCGGG"%string]) as <-.
  { vm_compute in E. injection E as <-. reflexivity. }
  apply (pos_checker_result_complete _ _ _ _ _ E).
Defined.

(** A record with the filter ["PASS"] and an FFPE hit is written with
    the filter ["FFPE"] alone. *)
Example vcf_extract_replaces_pass :
  List.map filter
    (output_vcf
       (vcf_extract (bam_of [read_fwd_C; read_rev_T]) [record_T_C_pass]).1)
  = [["FFPE"%string]].
Proof. vm_compute. reflexivity. Qed.

(** ** Malformed read identifiers *)

Lemma barcode_fields_no_underscore (rd : read) :
  "_" ∉ list_ascii_of_string (query_name rd) →
  barcode_fields rd = split "+" (query_name rd).
Proof.
  intros Hno. unfold barcode_fields. by rewrite (split_no_sep _ _ Hno).
Qed.

(** C4, as amended.  Neither kind of malformed identifier is recovered
    read by read.  When the identifier of some read of the position
    yields fewer than two barcode fields, [pos_checker] raises
    [IndexError], which its handler for [KeyError] does not catch: the
    computation of the whole position stops with that error and nothing
    is returned for the other reads.  When an identifier has no ["_"]
    and holds a ["+"], no error is raised for it: the whole identifier
    is split at ["+"], and when [pos_checker] returns (every identifier
    yields two barcode fields and no coordinate mapping is longer than
    its sequence) the read is among the molecules under the key built
    from the first two fields of its identifier. *)
Theorem pos_checker_malformed_identifier (bam_lst : list read)
    (record_pos : Z) (ref_var ref_base : list ascii) :
  (Exists (λ rd, (List.length (barcode_fields rd) < 2)%nat) bam_lst →
   pos_checker bam_lst record_pos ref_var ref_base = Raise IndexError)
  ∧ (Forall (λ rd, (2 ≤ List.length (barcode_fields rd))%nat) bam_lst →
     Forall read_covered bam_lst →
     ∃ res,
       pos_checker bam_lst record_pos ref_var ref_base = Ok res
       ∧ ∀ rd umi_l umi_r brc,
           rd ∈ bam_lst →
           "_" ∉ list_ascii_of_string (query_name rd) →
           split "+" (query_name rd) = umi_l :: umi_r :: brc →
           molecule_key (read_strand rd) umi_l umi_r ∈ res.*1).
Proof.
  split; [apply pos_checker_unparseable_umi|].
  intros Hparsed Hcov. unfold pos_checker.
  destruct (group_loop_parsed bam_lst [] Hparsed) as [d Hd].
  rewrite Hd. simpl. rewrite filter_umi_add_truthy.
  destruct (group_loop_wf _ _ _ Hd) as [(Hnd & _ & Hfiled) Hperm].
  { split_and!; [apply NoDup_nil_2|done|done]. }
  simpl in Hperm.
  destruct (pos_checker_loop_covered record_pos ref_var ref_base d
              loop_vars_init) as (st & -> & Hkeys).
  - apply Forall_forall. intros kv Hkv. apply Forall_forall. intros rd Hrd.
    rewrite Forall_forall in Hcov. apply Hcov. rewrite <- Hperm.
    unfold grouped_reads. apply list_elem_of_In, in_flat_map.
    exists kv. split; by apply list_elem_of_In.
  - done.
  - simpl in Hkeys. exists (pos_res st). split; [done|].
    intros rd umi_l umi_r brc Hin Hno Hsplit. rewrite Hkeys.
    rewrite <- (barcode_fields_no_underscore rd Hno) in Hsplit.
    pose proof (umi_id_of_fields rd umi_l umi_r brc Hsplit) as Hid.
    rewrite <- Hperm in Hin. unfold grouped_reads in Hin.
    apply list_elem_of_In, in_flat_map in Hin as (kv & Hkv & Hrd).
    apply list_elem_of_In in Hkv. apply list_elem_of_In in Hrd.
    rewrite Forall_forall in Hfiled. destruct (Hfiled kv Hkv) as [Hf Hr].
    rewrite Forall_forall in Hf. rewrite Forall_forall in Hr.
    apply list_elem_of_fmap. exists kv. split; [|done].
    unfold group_reads in Hrd. apply elem_of_app in Hrd as [Hrd|Hrd].
    + specialize (Hf rd Hrd). rewrite Hid in Hf. by injection Hf as _ <-.
    + specialize (Hr rd Hrd). rewrite Hid in Hr. by injection Hr as _ <-.
Qed.

Lemma pos_checker_malformed_identifier_witness :
  pos_checker [read_fwd_C; read_no_plus; read_rev_T] 99 ["C"] ["T"]
  = Raise IndexError
  ∧ ∃ res,
      pos_checker [read_fwd_C; read_no_underscore; read_rev_T] 99 ["C"] ["T"]
      = Ok res
      ∧ ∀ rd umi_l umi_r brc,
          rd ∈ [read_fwd_C; read_no_underscore; read_rev_T] →
          "_" ∉ list_ascii_of_string (query_name rd) →
          split "+" (query_name rd) = umi_l :: umi_r :: brc →
          molecule_key (read_strand rd) umi_l umi_r ∈ res.*1.
Proof.
  split.
  - apply (proj1 (pos_checker_malformed_identifier
                    [read_fwd_C; read_no_plus; read_rev_T] 99 ["C"] ["T"])).
    apply Exists_cons_tl, Exists_cons_hd. vm_compute. lia.
  - apply (proj2 (pos_checker_malformed_identifier
                    [read_fwd_C; read_no_underscore; read_rev_T] 99
                    ["C"] ["T"])).
    + repeat constructor; vm_compute; lia.
    + repeat constructor; unfold read_covered; simpl; lia.
Defined.

(** C4, as first stated, fails for both kinds of malformed identifier.
    With the read [read_no_plus], whose identifier holds one barcode
    field, in front of the two reads of a paired molecule, [pos_checker]
    raises [IndexError] instead of returning what it returns for the two
    other reads alone.  For the read [read_no_underscore], whose
    identifier has no ["_"], no error is raised: the text before the
    ["+"] is taken for a barcode, and the read is returned as a molecule
    of its own under the key ["readname_CCCGGG"]. *)
Lemma pos_checker_malformed_not_surfaced :
  pos_checker [read_no_plus; read_fwd_C; read_rev_T] 99 ["C"] ["T"]
  = Raise IndexError
  ∧ verdict_counts <$> pos_checker [read_fwd_C; read_rev_T] 99 ["C"] ["T"]
    = Ok [Some 1%nat]
  ∧ umi_id_of read_no_underscore
    = Ok (Forward_Molecule, "readname_CCCGGG"%string)
  ∧ pos_checker [read_no_underscore; read_fwd_C; read_rev_T] 99 ["C"] ["T"]
    = Ok [("readname_CCCGGG"%string,
           {| Forward_Single := ∅; Reverse_Single := ∅;
              Variant_Hits := None |});
          ("AAATTT_CCCGGG"%string,
           {| Forward_Single := ∅; Reverse_Single := ∅;
              Variant_Hits :=
                Some {| FFPE_Hits :=
                          {["C" := {| Forward_Molecule_hits := tally_C;
                                      Reverse_Molecule_hits := tally_T |}]};
                        Mutation_Hits := ∅; Reference_Hits := ∅;
                        Other_Mutation_Hits := ∅ |} |})].
Proof. split_and!; vm_compute; reflexivity. Qed.
